(** * lazy_arena: a nested bump-pointer allocator (src/lazy_alloc.h)

    Shallow embedding of the four operations of the header
    ([create_lazy_context], [lazy_alloc], [destroy_lazy_context],
    [reset_lazy_context]) over an explicit C-like store: a heap of
    malloc'ed blocks and the thread-local [lazy_stack].

    Conventions
    - [size_t] is the 64-bit unsigned type of an LP64 target; its
      wrap-around is written out with [size_t].
    - [uint8_t] values are integers modulo 256.
    - [int top] is a mathematical integer; the one signed addition that
      could leave the range of [int] is modelled as undefined behaviour.
    - Pointers are [NULL] or a block identifier with a byte offset; every
      successful [malloc] yields a block never handed out before.
    - [malloc] may fail at any call: whether it does is an input of the
      model (an [oracle]), as are the indeterminate contents of a freshly
      allocated [LazyArena]. *)

From Stdlib Require Import ZArith Lia.
From stdpp Require Import gmap list.

Local Open Scope Z_scope.

(** ** Machine integers *)

Definition MAX_LAZY_STACK : Z := 16.
Definition SIZE_MOD : Z := 2 ^ 64.
Definition SIZE_MAX : Z := SIZE_MOD - 1.
Definition INT_MAX : Z := 2 ^ 31 - 1.

(** Conversion of an integer to [size_t] and to [uint8_t]. *)
Definition size_t (n : Z) : Z := n mod SIZE_MOD.
Definition uint8_t (n : Z) : Z := n mod 256.

(** The values a C caller can pass for a [size_t] and a [uint8_t]. *)
Definition is_size_t (n : Z) : Prop := 0 ≤ n < SIZE_MOD.
Definition is_uint8_t (n : Z) : Prop := 0 ≤ n < 256.

(** ** Store *)

Definition block : Type := positive.

Inductive ptr : Type :=
  | NULL
  | Ptr (b : block) (ofs : Z).

Global Instance ptr_eq_dec : EqDecision ptr.
Proof. solve_decision. Defined.

(** [typedef struct { void* memory; size_t size; size_t offset; } LazyArena;] *)
Record LazyArena : Type := mkArena {
  memory : ptr;
  size : Z;
  offset : Z
}.

Global Instance LazyArena_eq_dec : EqDecision LazyArena.
Proof. solve_decision. Defined.

Definition set_memory (a : LazyArena) (p : ptr) : LazyArena :=
  {| memory := p; size := size a; offset := offset a |}.
Definition set_size (a : LazyArena) (n : Z) : LazyArena :=
  {| memory := memory a; size := n; offset := offset a |}.
Definition set_offset (a : LazyArena) (n : Z) : LazyArena :=
  {| memory := memory a; size := size a; offset := n |}.

(** What a live heap block holds: an arena header, or a raw buffer of
    [n] bytes (whose contents the allocator never reads). *)
Inductive cell : Type :=
  | CArena (a : LazyArena)
  | CBuf (n : Z).

Global Instance cell_eq_dec : EqDecision cell.
Proof. solve_decision. Defined.

(** [typedef struct { LazyArena* arenas[MAX_LAZY_STACK]; int top; } LazyArenaStack;] *)
Record LazyArenaStack : Type := mkStack {
  arenas : list ptr;
  top : Z
}.

Record state : Type := mkState {
  heap : gmap block cell;
  next : block;
  lazy_stack : LazyArenaStack
}.

(** [static LazyArenaStack lazy_stack = { .top = -1 };] with an empty heap. *)
Definition initial_state : state :=
  {| heap := ∅;
     next := 1%positive;
     lazy_stack := {| arenas := replicate (Z.to_nat MAX_LAZY_STACK) NULL;
                      top := -1 |} |}.

Definition depth (s : state) : Z := top (lazy_stack s) + 1.

(** ** Computations over the store

    A call either returns a value and a new store, runs into undefined
    behaviour, or (for the loop of [destroy_lazy_context]) exhausts the
    iteration budget it was given. *)

Inductive outcome (A : Type) : Type :=
  | Ok (a : A) (s : state)
  | UB
  | OutOfFuel.
Arguments Ok {A} a s.
Arguments UB {A}.
Arguments OutOfFuel {A}.

Definition M (A : Type) : Type := state → outcome A.

Global Instance M_ret : MRet M := λ A (a : A) s, Ok a s.
Global Instance M_bind : MBind M :=
  λ A B (k : A → M B) (c : M A) s,
    match c s with
    | Ok a s' => k a s'
    | UB => UB
    | OutOfFuel => OutOfFuel
    end.
Definition undefined {A} : M A := λ _, UB.
Definition out_of_fuel {A} : M A := λ _, OutOfFuel.

Definition get_top : M Z := λ s, Ok (top (lazy_stack s)) s.
Definition set_top (t : Z) : M unit :=
  λ s, Ok tt {| heap := heap s; next := next s;
                lazy_stack := {| arenas := arenas (lazy_stack s); top := t |} |}.

(** [lazy_stack.arenas[i]] as an rvalue and as an assignment; an index
    outside the array is undefined behaviour. *)
Definition get_slot (i : Z) : M ptr :=
  λ s, if decide (0 ≤ i < MAX_LAZY_STACK) then
         match arenas (lazy_stack s) !! Z.to_nat i with
         | Some p => Ok p s
         | None => UB
         end
       else UB.

Definition set_slot (i : Z) (p : ptr) : M unit :=
  λ s, if decide (0 ≤ i < MAX_LAZY_STACK ∧ (Z.to_nat i < length (arenas (lazy_stack s)))%nat) then
         Ok tt {| heap := heap s; next := next s;
                  lazy_stack := {| arenas := <[Z.to_nat i := p]> (arenas (lazy_stack s));
                                   top := top (lazy_stack s) |} |}
       else UB.

(** [malloc]: fails (returns [NULL]) when [ok] is false, otherwise
    returns the start of a new block initialised with [c]. *)
Definition malloc (ok : bool) (c : cell) : M ptr :=
  λ s, if ok then
         Ok (Ptr (next s) 0)
            {| heap := <[next s := c]> (heap s);
               next := Pos.succ (next s);
               lazy_stack := lazy_stack s |}
       else Ok NULL s.

(** [free]: nothing for [NULL]; releases a live block given its start;
    anything else is undefined behaviour. *)
Definition free (p : ptr) : M unit :=
  λ s, match p with
       | NULL => Ok tt s
       | Ptr b ofs =>
           if decide (ofs = 0) then
             match heap s !! b with
             | Some _ => Ok tt {| heap := delete b (heap s); next := next s;
                                  lazy_stack := lazy_stack s |}
             | None => UB
             end
           else UB
       end.

(** Reading and writing the [LazyArena] a pointer designates. *)
Definition load_arena (p : ptr) : M LazyArena :=
  λ s, match p with
       | NULL => UB
       | Ptr b ofs =>
           if decide (ofs = 0) then
             match heap s !! b with
             | Some (CArena a) => Ok a s
             | _ => UB
             end
           else UB
       end.

Definition store_arena (p : ptr) (a : LazyArena) : M unit :=
  λ s, match p with
       | NULL => UB
       | Ptr b ofs =>
           if decide (ofs = 0) then
             match heap s !! b with
             | Some (CArena _) =>
                 Ok tt {| heap := <[b := CArena a]> (heap s); next := next s;
                          lazy_stack := lazy_stack s |}
             | _ => UB
             end
           else UB
       end.

(** [(char* )p + n]: defined only inside a live buffer or one past its end. *)
Definition ptr_add (p : ptr) (n : Z) : M ptr :=
  λ s, match p with
       | NULL => UB
       | Ptr b ofs =>
           match heap s !! b with
           | Some (CBuf len) =>
               if decide (0 ≤ ofs + n ≤ len) then Ok (Ptr b (ofs + n)) s else UB
           | _ => UB
           end
       end.

(** ** The four operations *)

(** What the environment decides during one [create_lazy_context]:
    whether each of the two [malloc] calls succeeds, and the
    indeterminate contents of the new header. *)
Record oracle : Type := mkOracle {
  arena_ok : bool;
  memory_ok : bool;
  junk : LazyArena
}.

(** The error value: [return -1] from a function returning [uint8_t]. *)
Definition CONTEXT_ERROR : Z := uint8_t (-1).

(** The guard of line 54. *)
Definition stack_full (s : state) : bool :=
  bool_decide (MAX_LAZY_STACK ≤ top (lazy_stack s) + 1).

Definition create_lazy_context (o : oracle) (nbytes : Z) : M Z :=
  t ← get_top;
  if decide (t = INT_MAX) then undefined else
  if bool_decide (MAX_LAZY_STACK ≤ t + 1) then mret CONTEXT_ERROR else
  arena ← malloc (arena_ok o) (CArena (junk o));
  if decide (arena = NULL) then mret CONTEXT_ERROR else
  m ← malloc (memory_ok o) (CBuf nbytes);
  a ← load_arena arena;
  store_arena arena (set_memory a m);;
  a ← load_arena arena;
  if decide (memory a = NULL) then
    (free arena;; mret CONTEXT_ERROR)
  else
    a ← load_arena arena;
    store_arena arena (set_size a nbytes);;
    a ← load_arena arena;
    store_arena arena (set_offset a 0);;
    t ← get_top;
    set_top (t + 1);;
    t ← get_top;
    set_slot t arena;;
    t ← get_top;
    mret (uint8_t t).

Definition lazy_alloc (nbytes : Z) : M ptr :=
  t ← get_top;
  if bool_decide (t < 0) then mret NULL else
  arena ← get_slot t;
  a ← load_arena arena;
  if bool_decide (size a < size_t (offset a + nbytes)) then mret NULL else
  p ← ptr_add (memory a) (offset a);
  a ← load_arena arena;
  store_arena arena (set_offset a (size_t (offset a + nbytes)));;
  mret p.

(** The loop of lines 124-128, with an iteration budget. *)
Fixpoint destroy_loop (fuel : nat) (context : Z) : M unit :=
  t ← get_top;
  if bool_decide (context ≤ t) then
    match fuel with
    | O => out_of_fuel
    | S fuel' =>
        arena ← get_slot t;
        set_top (t - 1);;
        a ← load_arena arena;
        free (memory a);;
        free arena;;
        destroy_loop fuel' context
    end
  else mret tt.

(** The budget is the number of contexts on the stack: each iteration
    pops one (see [destroy_loop_fuel]). *)
Definition destroy_lazy_context (context : Z) : M unit :=
  t ← get_top;
  if bool_decide (t < 0) then mret tt else
  destroy_loop (Z.to_nat (t + 1)) context.

Definition reset_lazy_context : M unit :=
  t ← get_top;
  if bool_decide (0 ≤ t) then
    arena ← get_slot t;
    a ← load_arena arena;
    store_arena arena (set_offset a 0)
  else mret tt.

(** ** Calls and call sequences *)

Inductive op : Type :=
  | Create (o : oracle) (nbytes : Z)
  | Alloc (nbytes : Z)
  | Reset
  | Destroy (context : Z).

(** What a call returns. *)
Inductive value : Type :=
  | VContext (c : Z)
  | VPtr (p : ptr)
  | VUnit.

Definition run_op (o : op) : M value :=
  match o with
  | Create orc n => c ← create_lazy_context orc n; mret (VContext c)
  | Alloc n => p ← lazy_alloc n; mret (VPtr p)
  | Reset => reset_lazy_context;; mret VUnit
  | Destroy context => destroy_lazy_context context;; mret VUnit
  end.

Fixpoint run_ops (os : list op) : M (list value) :=
  match os with
  | [] => mret []
  | o :: os' => v ← run_op o; vs ← run_ops os'; mret (v :: vs)
  end.

(** The arguments are values of their C types ([nbytes] stands for the
    parameter the source calls [size], a name the record field keeps). *)
Definition valid_op (o : op) : Prop :=
  match o with
  | Create _ n => is_size_t n
  | Alloc n => is_size_t n
  | Reset => True
  | Destroy context => is_uint8_t context
  end.

(** ** The state invariant *)

(** The header block, header contents and buffer block of the context
    at stack index [i], when the slot designates a live header whose
    [memory] is the start of a live buffer of [size] bytes. *)
Definition arena_at (s : state) (i : nat) : option (block * LazyArena * block) :=
  match arenas (lazy_stack s) !! i with
  | Some (Ptr b 0) =>
      match heap s !! b with
      | Some (CArena a) =>
          match memory a with
          | Ptr m 0 =>
              match heap s !! m with
              | Some (CBuf len) =>
                  if decide (len = size a) then Some (b, a, m) else None
              | _ => None
              end
          | _ => None
          end
      | _ => None
      end
  | _ => None
  end.

(** Indices of the open contexts, bottom first. *)
Definition live (s : state) : list nat := seq 0 (Z.to_nat (depth s)).

Definition arena_good (s : state) (i : nat) : Prop :=
  match arena_at s i with
  | Some (_, a, _) => 0 ≤ offset a ≤ size a ∧ size a < SIZE_MOD
  | None => False
  end.

Definition owned_at (s : state) (i : nat) : list block :=
  match arena_at s i with
  | Some (b, _, m) => [b; m]
  | None => []
  end.

(** Blocks owned by the contexts at the indices [is]. *)
Definition owned_by (s : state) (idx : list nat) : list block :=
  flat_map (owned_at s) idx.

Definition owned (s : state) : list block := owned_by s (live s).

Record wf (s : state) : Prop := mkWf {
  wf_depth : 0 ≤ depth s ≤ MAX_LAZY_STACK;
  wf_length : length (arenas (lazy_stack s)) = Z.to_nat MAX_LAZY_STACK;
  wf_arenas : Forall (arena_good s) (live s);
  wf_nodup : NoDup (owned s);
  wf_fresh : map_Forall (λ b _, (b < next s)%positive) (heap s)
}.

Global Instance arena_good_dec s i : Decision (arena_good s i).
Proof.
  unfold arena_good. destruct (arena_at s i) as [[[b a] m]|]; apply _.
Defined.

Global Instance wf_dec s : Decision (wf s).
Proof.
  refine (cast_if (decide ((0 ≤ depth s ≤ MAX_LAZY_STACK)
    ∧ length (arenas (lazy_stack s)) = Z.to_nat MAX_LAZY_STACK
    ∧ Forall (arena_good s) (live s)
    ∧ NoDup (owned s)
    ∧ map_Forall (λ b _, (b < next s)%positive) (heap s))));
    [ destruct a as (?&?&?&?&?); by constructor
    | intros []; apply n; auto ].
Defined.

(** The two invariants of the data model, as the specification words
    them: the bound on the depth, and the bound on every open context's
    offset. *)
Definition depth_inv (s : state) : Prop :=
  0 ≤ depth s ≤ MAX_LAZY_STACK ∧ -1 ≤ top (lazy_stack s) ≤ MAX_LAZY_STACK - 1.

Definition offset_inv (s : state) : Prop :=
  ∀ (i : nat) b a,
    (0 ≤ Z.of_nat i < depth s) →
    arenas (lazy_stack s) !! i = Some (Ptr b 0) →
    heap s !! b = Some (CArena a) →
    0 ≤ offset a ≤ size a.

(** ** Derived stores and relations used in the statements *)

(** The store after a successful [create_lazy_context]. *)
Definition push (s : state) (n : Z) : state :=
  {| heap := <[next s := CArena {| memory := Ptr (Pos.succ (next s)) 0;
                                   size := n; offset := 0 |}]>
               (<[Pos.succ (next s) := CBuf n]> (heap s));
     next := Pos.succ (Pos.succ (next s));
     lazy_stack :=
       {| arenas := <[Z.to_nat (top (lazy_stack s) + 1) := Ptr (next s) 0]>
                      (arenas (lazy_stack s));
          top := top (lazy_stack s) + 1 |} |}.

(** One iteration of the loop: the top context is popped, its buffer and
    its header are released. *)
Definition pop (s : state) (b m : block) : state :=
  {| heap := delete b (delete m (heap s));
     next := next s;
     lazy_stack := {| arenas := arenas (lazy_stack s);
                      top := top (lazy_stack s) - 1 |} |}.

(** Blocks owned by the contexts at indices [k] and above. *)
Definition released (s : state) (k : Z) : list block :=
  owned_by s (seq (Z.to_nat k) (Z.to_nat (depth s) - Z.to_nat k)).

(** What [destroy_lazy_context] and its loop establish, from store [s]
    to store [s']. *)
Definition popped_to (context : Z) (s s' : state) : Prop :=
  wf s'
  ∧ depth s' = Z.min (depth s) context
  ∧ arenas (lazy_stack s') = arenas (lazy_stack s)
  ∧ next s' = next s
  ∧ (∀ x, heap s' !! x =
            if decide (x ∈ released s context) then None else heap s !! x)
  ∧ (∀ i, Z.of_nat i < depth s' → arena_at s' i = arena_at s i).

(** The stores a client of the four operations can reach. *)
Inductive reachable : state → Prop :=
  | reach_init : reachable initial_state
  | reach_step s o v s' :
      reachable s → valid_op o → run_op o s = Ok v s' → reachable s'.

(** Call sequences without [destroy_lazy_context]; the identifiers a
    call sequence returned; the number of [create_lazy_context] calls in
    it; and the sequences in which no [malloc] fails. *)
Definition is_destroy (o : op) : bool :=
  match o with Destroy _ => true | _ => false end.

Definition is_create (o : op) : bool :=
  match o with Create _ _ => true | _ => false end.

Definition created (vs : list value) : list Z :=
  omap (λ v, match v with VContext c => Some c | _ => None end) vs.

Definition creates (os : list op) : nat := length (filter is_create os).

Definition malloc_succeeds (o : op) : Prop :=
  match o with
  | Create orc _ => arena_ok orc = true ∧ memory_ok orc = true
  | _ => True
  end.

(** A run of [lazy_alloc] calls, one per requested size; the requests
    that were served, each with the pointer returned; and ranges laid
    out back to back in block [m] from offset [off]. *)
Fixpoint lazy_allocs (ns : list Z) : M (list ptr) :=
  match ns with
  | [] => mret []
  | n :: ns' =>
      p ← lazy_alloc n;
      ps ← lazy_allocs ns';
      mret (p :: ps)
  end.

Fixpoint served (ns : list Z) (ps : list ptr) : list (ptr * Z) :=
  match ns, ps with
  | n :: ns', p :: ps' =>
      if decide (p = NULL) then served ns' ps' else (p, n) :: served ns' ps'
  | _, _ => []
  end.

Fixpoint laid_out (m : block) (off : Z) (l : list (ptr * Z)) : Prop :=
  match l with
  | [] => True
  | (p, n) :: l' => p = Ptr m off ∧ 0 ≤ n ∧ laid_out m (off + n) l'
  end.

Definition total_size (l : list (ptr * Z)) : Z := foldr Z.add 0 (snd <$> l).

(** The byte ranges [[p1, p1 + n1)] and [[p2, p2 + n2)] share a byte. *)
Definition overlaps (p1 : ptr) (n1 : Z) (p2 : ptr) (n2 : Z) : bool :=
  match p1, p2 with
  | Ptr b1 o1, Ptr b2 o2 => bool_decide (b1 = b2 ∧ o1 < o2 + n2 ∧ o2 < o1 + n1)
  | _, _ => false
  end.

Global Instance valid_op_dec o : Decision (valid_op o).
Proof. destruct o; simpl; unfold is_size_t, is_uint8_t; apply _. Defined.

(** ** The example program (src/example.c)

    The program stores [int]s into memory it got from [lazy_alloc] and
    prints them. Its world is the allocator's store, the [int]s held in
    buffers (keyed by block and byte offset) and the lines printed.
    [sizeof(int)] is 4, as on the LP64 target. [main] only starts
    [thread_func] on a new thread, whose thread-local stack is the
    initial one, and joins it. *)

Definition SIZEOF_INT : Z := 4.

(** The three [printf] calls, by format string. *)
Inductive line : Type :=
  | NestedAllocated (v : Z)
  | ThreadAllocated (v : Z)
  | ThreadAfterNested (v : Z).

Record world : Type := mkWorld {
  store : state;
  ints : gmap (block * Z) Z;
  stdout : list line
}.

Inductive result (A : Type) : Type :=
  | Done (a : A) (w : world)
  | Undefined
  | Exhausted.
Arguments Done {A} a w.
Arguments Undefined {A}.
Arguments Exhausted {A}.

Definition Prog (A : Type) : Type := world → result A.

Global Instance Prog_ret : MRet Prog := λ A (a : A) w, Done a w.
Global Instance Prog_bind : MBind Prog :=
  λ A B (k : A → Prog B) (c : Prog A) w,
    match c w with
    | Done a w' => k a w'
    | Undefined => Undefined
    | Exhausted => Exhausted
    end.

(** A call into the allocator. *)
Definition call {A} (c : M A) : Prog A :=
  λ w, match c (store w) with
       | Ok a s => Done a {| store := s; ints := ints w; stdout := stdout w |}
       | UB => Undefined
       | OutOfFuel => Exhausted
       end.

(** The [int] cells that share a byte with the one at offset [o]. *)
Definition clobbered (b : block) (o : Z) : list (block * Z) :=
  (λ d, (b, o + d)) <$> [-3; -2; -1; 1; 2; 3].

(** [*p = v] for [int* p]: the four bytes must lie in a live buffer. *)
Definition store_int (p : ptr) (v : Z) : Prog unit :=
  λ w, match p with
       | NULL => Undefined
       | Ptr b o =>
           match heap (store w) !! b with
           | Some (CBuf len) =>
               if decide (0 ≤ o ∧ o + SIZEOF_INT ≤ len) then
                 Done tt {| store := store w;
                            ints := <[(b, o) := v]>
                                      (foldr delete (ints w) (clobbered b o));
                            stdout := stdout w |}
               else Undefined
           | _ => Undefined
           end
       end.

(** [*p] for [int* p]: the bytes must lie in a live buffer and hold an
    [int] that was stored there. *)
Definition load_int (p : ptr) : Prog Z :=
  λ w, match p with
       | NULL => Undefined
       | Ptr b o =>
           match heap (store w) !! b with
           | Some (CBuf len) =>
               if decide (0 ≤ o ∧ o + SIZEOF_INT ≤ len) then
                 match ints w !! (b, o) with
                 | Some v => Done v w
                 | None => Undefined
                 end
               else Undefined
           | _ => Undefined
           end
       end.

Definition printf (fmt : Z → line) (v : Z) : Prog unit :=
  λ w, Done tt {| store := store w; ints := ints w;
                  stdout := stdout w ++ [fmt v] |}.

(** [void nested_function()]: the call that would destroy the context
    is commented out in the source. *)
Definition nested_function (o : oracle) : Prog unit :=
  lazy ← call (create_lazy_context o 512);
  data ← call (lazy_alloc SIZEOF_INT);
  (if decide (data = NULL) then mret tt else store_int data 42);;
  v ← (if decide (data = NULL) then mret (-1) else load_int data);
  printf NestedAllocated v.

(** [int thread_func(void* arg)]; [o1] and [o2] are the environment of
    its own [create_lazy_context] and of [nested_function]'s. The source
    ignores [arg] and has no [return] statement: the model yields no
    value. *)
Definition thread_func (o1 o2 : oracle) : Prog unit :=
  lazy ← call (create_lazy_context o1 1024);
  data ← call (lazy_alloc SIZEOF_INT);
  (if decide (data = NULL) then mret tt else store_int data 100);;
  v ← (if decide (data = NULL) then mret (-1) else load_int data);
  printf ThreadAllocated v;;
  nested_function o2;;
  data ← call (lazy_alloc SIZEOF_INT);
  (if decide (data = NULL) then mret tt else store_int data 200);;
  v ← (if decide (data = NULL) then mret (-1) else load_int data);
  printf ThreadAfterNested v;;
  call (destroy_lazy_context lazy).

(** A new thread: the initial stack, nothing stored, nothing printed. *)
Definition new_thread : world :=
  {| store := initial_state; ints := ∅; stdout := [] |}.

(** Whether both [malloc] calls of a [create_lazy_context] succeed. *)
Definition succeeds (o : oracle) : bool := arena_ok o && memory_ok o.

(** ** The effect of a call on the store *)

(** The store with the header in block [b] replaced by [a]. *)
Definition with_header (s : state) (b : block) (a : LazyArena) : state :=
  {| heap := <[b := CArena a]> (heap s); next := next s;
     lazy_stack := lazy_stack s |}.

(** The four ways a call changes a well-formed store: not at all (up to
    the supply of block names), by pushing a context, by rewriting the
    offset of the top header, or by popping contexts. *)
Inductive effect (s s' : state) : Prop :=
  | effect_none :
      heap s' = heap s → lazy_stack s' = lazy_stack s →
      (next s ≤ next s')%positive → effect s s'
  | effect_push n :
      depth s < MAX_LAZY_STACK → is_size_t n → s' = push s n → effect s s'
  | effect_offset b a m k :
      0 ≤ top (lazy_stack s) →
      arena_at s (Z.to_nat (top (lazy_stack s))) = Some (b, a, m) →
      0 ≤ k ≤ size a →
      s' = with_header s b (set_offset a k) → effect s s'
  | effect_pop context :
      0 ≤ context → popped_to context s s' → effect s s'.

(** ** Concrete stores *)

(** An environment in which every [malloc] succeeds. *)
Definition all_ok (j : LazyArena) : oracle :=
  {| arena_ok := true; memory_ok := true; junk := j |}.
Definition junk0 : LazyArena := {| memory := NULL; size := 0; offset := 0 |}.

(** The store after a call sequence from the initial store. *)
Definition state_after (os : list op) : state :=
  match run_ops os initial_state with
  | Ok _ s => s
  | _ => initial_state
  end.

(** One context of 100 bytes, one byte handed out. *)
Definition one_context_used : state :=
  state_after [Create (all_ok junk0) 100; Alloc 1].

(** One context of 100 bytes, completely handed out. *)
Definition one_context_exhausted : state :=
  state_after [Create (all_ok junk0) 100; Alloc 100].

(** The nested contexts of the specification's end-to-end scenario. *)
Definition two_contexts : state :=
  state_after [Create (all_ok junk0) 100; Alloc 10; Create (all_ok junk0) 50].

(** Sixteen nested contexts: the stack at capacity. *)
Definition full_stack : state :=
  state_after (replicate 16 (Create (all_ok junk0) 8)).

(** An environment in which the header is obtained and the buffer is not. *)
Definition no_buffer (j : LazyArena) : oracle :=
  {| arena_ok := true; memory_ok := false; junk := j |}.

(** A fresh thread in a process that already holds a block of its own. *)
Definition foreign_store : state :=
  {| heap := {[ 1%positive := CBuf 8 ]};
     next := 2%positive;
     lazy_stack := lazy_stack initial_state |}.

(** * Proofs *)

(** ** Reading the invariant *)

Lemma arena_at_Some s i b a m :
  arena_at s i = Some (b, a, m) ↔
    arenas (lazy_stack s) !! i = Some (Ptr b 0) ∧
    heap s !! b = Some (CArena a) ∧
    memory a = Ptr m 0 ∧
    heap s !! m = Some (CBuf (size a)).
Proof.
  unfold arena_at. split.
  - destruct (arenas (lazy_stack s) !! i) as [[|b' [| |]]|] eqn:Hs;
      try discriminate.
    destruct (heap s !! b') as [[a'|]|] eqn:Ha; try discriminate.
    destruct (memory a') as [|m' [| |]] eqn:Hm; try discriminate.
    destruct (heap s !! m') as [[|len]|] eqn:Hb; try discriminate.
    case_decide; try discriminate.
    intros [= <- <- <-]. by subst len.
  - intros (-> & -> & -> & ->). by rewrite decide_True.
Qed.

Lemma arena_at_frame s s' i b a m :
  arena_at s i = Some (b, a, m) →
  arenas (lazy_stack s') !! i = arenas (lazy_stack s) !! i →
  heap s' !! b = heap s !! b →
  heap s' !! m = heap s !! m →
  arena_at s' i = Some (b, a, m).
Proof.
  rewrite !arena_at_Some. intros (H1 & H2 & H3 & H4) E1 E2 E3.
  by rewrite E1, E2, E3.
Qed.

Lemma arena_at_blocks_ne s i b a m :
  arena_at s i = Some (b, a, m) → b ≠ m.
Proof.
  rewrite arena_at_Some. intros (_ & H2 & _ & H4) ->. congruence.
Qed.

Lemma elem_of_live s i : i ∈ live s ↔ (Z.of_nat i < depth s).
Proof. unfold live. rewrite elem_of_seq. lia. Qed.

Lemma elem_of_owned_by s idx x :
  x ∈ owned_by s idx ↔ ∃ i, i ∈ idx ∧ x ∈ owned_at s i.
Proof.
  unfold owned_by. rewrite list_elem_of_In, in_flat_map.
  by setoid_rewrite list_elem_of_In.
Qed.

Lemma elem_of_owned_at s i x :
  x ∈ owned_at s i ↔ ∃ b a m, arena_at s i = Some (b, a, m) ∧ (x = b ∨ x = m).
Proof.
  unfold owned_at. destruct (arena_at s i) as [[[b a] m]|].
  - rewrite !elem_of_cons, elem_of_nil. split.
    + intros [->| [->|[]]]; eauto 10.
    + intros (? & ? & ? & [= <- <- <-] & [->| ->]); auto.
  - rewrite elem_of_nil. split; [done|]. by intros (? & ? & ? & ? & _).
Qed.

Lemma owned_by_app s l1 l2 :
  owned_by s (l1 ++ l2) = owned_by s l1 ++ owned_by s l2.
Proof. unfold owned_by. apply flat_map_app. Qed.

Lemma owned_by_ext s s' idx :
  (∀ i, i ∈ idx → owned_at s' i = owned_at s i) →
  owned_by s' idx = owned_by s idx.
Proof.
  unfold owned_by. induction idx as [|k idx IH]; intros H; [done|].
  simpl. rewrite H by left. f_equal. apply IH.
  intros i Hi. apply H. by right.
Qed.

(** Two different open contexts share no block. *)
Lemma NoDup_owned_by_inj s idx i j x :
  NoDup (owned_by s idx) →
  i ∈ idx → j ∈ idx → x ∈ owned_at s i → x ∈ owned_at s j →
  NoDup idx → i = j.
Proof.
  induction idx as [|k idx IH]; [by rewrite elem_of_nil|].
  change (owned_by s (k :: idx)) with (owned_at s k ++ owned_by s idx).
  rewrite NoDup_app, NoDup_cons, !elem_of_cons.
  intros (_ & Hdisj & Hnd) Hi Hj Hxi Hxj [Hk Hidx].
  destruct Hi as [->|Hi], Hj as [->|Hj]; auto.
  - exfalso. apply (Hdisj x Hxi). apply elem_of_owned_by. eauto.
  - exfalso. apply (Hdisj x Hxj). apply elem_of_owned_by. eauto.
Qed.

Lemma live_NoDup s : NoDup (live s).
Proof. apply NoDup_seq. Qed.

Lemma wf_arena_at s i :
  wf s → Z.of_nat i < depth s →
  ∃ b a m, arena_at s i = Some (b, a, m) ∧ 0 ≤ offset a ≤ size a ∧ size a < SIZE_MOD.
Proof.
  intros Hwf Hi. pose proof (wf_arenas _ Hwf) as HF.
  rewrite Forall_forall in HF. specialize (HF i).
  rewrite elem_of_live in HF. specialize (HF Hi).
  unfold arena_good in HF. destruct (arena_at s i) as [[[b a] m]|]; [|done].
  eauto 10.
Qed.

Lemma wf_top_arena s :
  wf s → 0 ≤ top (lazy_stack s) →
  ∃ b a m, arena_at s (Z.to_nat (top (lazy_stack s))) = Some (b, a, m)
           ∧ 0 ≤ offset a ≤ size a ∧ size a < SIZE_MOD.
Proof. intros Hwf Ht. apply wf_arena_at; [done|]. unfold depth. lia. Qed.

(** Blocks of different open contexts are different. *)
Lemma wf_disjoint s i j b a m b' a' m' :
  wf s → Z.of_nat i < depth s → Z.of_nat j < depth s → i ≠ j →
  arena_at s i = Some (b, a, m) → arena_at s j = Some (b', a', m') →
  b ≠ b' ∧ b ≠ m' ∧ m ≠ b' ∧ m ≠ m'.
Proof.
  intros Hwf Hi Hj Hne Ei Ej.
  assert (∀ x, x ∈ owned_at s i → x ∈ owned_at s j → False) as Hd.
  { intros x Hxi Hxj. apply Hne.
    eapply (NoDup_owned_by_inj s (live s) i j x); eauto using wf_nodup, live_NoDup.
    all: by apply elem_of_live. }
  unfold owned_at in Hd. rewrite Ei, Ej in Hd.
  repeat split; intros E;
    [apply (Hd b)|apply (Hd b)|apply (Hd m)|apply (Hd m)];
    rewrite ?E, !elem_of_cons; auto.
Qed.

Lemma wf_top_good s b a m :
  wf s → 0 ≤ top (lazy_stack s) →
  arena_at s (Z.to_nat (top (lazy_stack s))) = Some (b, a, m) →
  0 ≤ offset a ≤ size a ∧ size a < SIZE_MOD.
Proof.
  intros Hwf Ht Ha.
  destruct (wf_top_arena s Hwf Ht) as (b' & a' & m' & Ha' & Hg).
  rewrite Ha in Ha'. by injection Ha' as -> -> ->.
Qed.

Lemma wf_live_block s b c :
  wf s → heap s !! b = Some c → (b < next s)%positive.
Proof. intros Hwf Hb. by apply (wf_fresh _ Hwf b c). Qed.

Lemma wf_next_fresh s : wf s → heap s !! next s = None.
Proof.
  intros Hwf. destruct (heap s !! next s) as [c|] eqn:E; [|done].
  apply (wf_live_block _ _ _ Hwf) in E. lia.
Qed.

Lemma wf_depth_inv s : wf s → depth_inv s.
Proof. intros [Hd _ _ _ _]. unfold depth_inv, depth, MAX_LAZY_STACK in *. lia. Qed.

Lemma wf_offset_inv s : wf s → offset_inv s.
Proof.
  intros Hwf i b a Hi Hs Hb.
  destruct (wf_arena_at s i Hwf) as (b' & a' & m & E & Ho & _); [lia|].
  apply arena_at_Some in E as (E1 & E2 & _). congruence.
Qed.

Lemma wf_initial : wf initial_state.
Proof. apply (bool_decide_unpack _). vm_compute. exact I. Qed.

(** ** Primitive steps *)

Arguments get_slot : simpl never.
Arguments set_slot : simpl never.
Arguments malloc : simpl never.
Arguments free : simpl never.
Arguments load_arena : simpl never.
Arguments store_arena : simpl never.
Arguments ptr_add : simpl never.

Lemma get_slot_ok s i p :
  0 ≤ i < MAX_LAZY_STACK →
  arenas (lazy_stack s) !! Z.to_nat i = Some p →
  get_slot i s = Ok p s.
Proof. intros Hi Hp. unfold get_slot. by rewrite decide_True, Hp. Qed.

Lemma load_arena_ok s b a :
  heap s !! b = Some (CArena a) → load_arena (Ptr b 0) s = Ok a s.
Proof. intros Hb. unfold load_arena. by rewrite decide_True, Hb. Qed.

Lemma store_arena_ok s b a0 a :
  heap s !! b = Some (CArena a0) →
  store_arena (Ptr b 0) a s =
    Ok tt {| heap := <[b := CArena a]> (heap s); next := next s;
             lazy_stack := lazy_stack s |}.
Proof. intros Hb. unfold store_arena. by rewrite decide_True, Hb. Qed.

Lemma ptr_add_ok s b len n :
  heap s !! b = Some (CBuf len) → 0 ≤ n ≤ len →
  ptr_add (Ptr b 0) n s = Ok (Ptr b n) s.
Proof.
  intros Hb Hn. unfold ptr_add. rewrite Hb, decide_True by lia.
  by rewrite Z.add_0_l.
Qed.

Lemma free_ok s b c :
  heap s !! b = Some c →
  free (Ptr b 0) s =
    Ok tt {| heap := delete b (heap s); next := next s;
             lazy_stack := lazy_stack s |}.
Proof. intros Hb. unfold free. by rewrite decide_True, Hb. Qed.

(** ** What each operation computes on a well-formed store *)

Lemma lazy_alloc_empty s n :
  top (lazy_stack s) < 0 → lazy_alloc n s = Ok NULL s.
Proof.
  intros Ht. unfold lazy_alloc, mbind, M_bind, get_top. simpl.
  by rewrite bool_decide_true.
Qed.

Lemma lazy_alloc_exec s n b a m :
  0 ≤ top (lazy_stack s) < MAX_LAZY_STACK →
  arena_at s (Z.to_nat (top (lazy_stack s))) = Some (b, a, m) →
  0 ≤ offset a ≤ size a →
  lazy_alloc n s =
    if bool_decide (size a < size_t (offset a + n)) then Ok NULL s
    else Ok (Ptr m (offset a))
            {| heap := <[b := CArena (set_offset a (size_t (offset a + n)))]> (heap s);
               next := next s; lazy_stack := lazy_stack s |}.
Proof.
  intros Ht Ha Ho. apply arena_at_Some in Ha as (H1 & H2 & H3 & H4).
  unfold lazy_alloc, mbind, M_bind, get_top. simpl.
  rewrite bool_decide_false by lia.
  rewrite (get_slot_ok _ _ _ Ht H1), (load_arena_ok _ _ _ H2).
  case_bool_decide; [done|].
  rewrite H3, (ptr_add_ok _ _ _ _ H4 Ho), (load_arena_ok _ _ _ H2).
  by rewrite (store_arena_ok _ _ _ _ H2).
Qed.

Lemma reset_lazy_context_empty s :
  top (lazy_stack s) < 0 → reset_lazy_context s = Ok tt s.
Proof.
  intros Ht. unfold reset_lazy_context, mbind, M_bind, get_top. simpl.
  by rewrite bool_decide_false by lia.
Qed.

Lemma reset_lazy_context_exec s b a m :
  0 ≤ top (lazy_stack s) < MAX_LAZY_STACK →
  arena_at s (Z.to_nat (top (lazy_stack s))) = Some (b, a, m) →
  reset_lazy_context s =
    Ok tt {| heap := <[b := CArena (set_offset a 0)]> (heap s);
             next := next s; lazy_stack := lazy_stack s |}.
Proof.
  intros Ht Ha. apply arena_at_Some in Ha as (H1 & H2 & H3 & H4).
  unfold reset_lazy_context, mbind, M_bind, get_top. simpl.
  rewrite bool_decide_true by lia.
  rewrite (get_slot_ok _ _ _ Ht H1), (load_arena_ok _ _ _ H2).
  by rewrite (store_arena_ok _ _ _ _ H2).
Qed.

(** A call at full depth takes the early return of line 55. *)
Lemma create_lazy_context_full s o n :
  MAX_LAZY_STACK ≤ top (lazy_stack s) + 1 → top (lazy_stack s) ≠ INT_MAX →
  create_lazy_context o n s = Ok CONTEXT_ERROR s.
Proof.
  intros Ht Hi. unfold create_lazy_context, mbind, M_bind, get_top. simpl.
  rewrite decide_False by done. by rewrite bool_decide_true.
Qed.

(** A failing first [malloc] leaves the store as it was. *)
Lemma create_lazy_context_no_header s o n :
  top (lazy_stack s) + 1 < MAX_LAZY_STACK → arena_ok o = false →
  create_lazy_context o n s = Ok CONTEXT_ERROR s.
Proof.
  intros Ht Ho. unfold create_lazy_context, mbind, M_bind, get_top. simpl.
  rewrite decide_False by (unfold INT_MAX, MAX_LAZY_STACK in *; lia).
  rewrite bool_decide_false by lia.
  unfold malloc. rewrite Ho. by rewrite decide_True.
Qed.

(** A failing second [malloc]: the header is released again; only the
    supply of block names has moved. *)
Lemma create_lazy_context_no_buffer s o n :
  top (lazy_stack s) + 1 < MAX_LAZY_STACK →
  heap s !! next s = None →
  arena_ok o = true → memory_ok o = false →
  create_lazy_context o n s =
    Ok CONTEXT_ERROR {| heap := heap s; next := Pos.succ (next s);
                        lazy_stack := lazy_stack s |}.
Proof.
  intros Ht Hf Ho1 Ho2. unfold create_lazy_context, mbind, M_bind, get_top. simpl.
  rewrite decide_False by (unfold INT_MAX, MAX_LAZY_STACK in *; lia).
  rewrite bool_decide_false by lia.
  unfold malloc. rewrite Ho1, Ho2. rewrite decide_False by done.
  erewrite load_arena_ok by (simpl; apply lookup_insert_eq).
  erewrite store_arena_ok by (simpl; apply lookup_insert_eq). simpl.
  erewrite load_arena_ok by (simpl; apply lookup_insert_eq). simpl.
  erewrite free_ok by (simpl; apply lookup_insert_eq). simpl.
  unfold mret, M_ret. f_equal. f_equal.
  rewrite insert_insert_eq, delete_insert_eq. by apply delete_id.
Qed.

Lemma create_lazy_context_exec s o n :
  top (lazy_stack s) + 1 < MAX_LAZY_STACK → -1 ≤ top (lazy_stack s) →
  length (arenas (lazy_stack s)) = Z.to_nat MAX_LAZY_STACK →
  arena_ok o = true → memory_ok o = true →
  create_lazy_context o n s = Ok (top (lazy_stack s) + 1) (push s n).
Proof.
  intros Ht Ht' Hlen Ho1 Ho2.
  unfold push, create_lazy_context, mbind, M_bind, get_top. simpl.
  rewrite decide_False by (unfold INT_MAX, MAX_LAZY_STACK in *; lia).
  rewrite bool_decide_false by lia.
  unfold malloc. rewrite Ho1, Ho2. rewrite decide_False by done. simpl.
  assert (next s ≠ Pos.succ (next s)) as Hne by lia.
  erewrite load_arena_ok
    by (simpl; rewrite lookup_insert_ne by done; apply lookup_insert_eq).
  erewrite store_arena_ok
    by (simpl; rewrite lookup_insert_ne by done; apply lookup_insert_eq). simpl.
  erewrite load_arena_ok by (simpl; apply lookup_insert_eq). simpl.
  erewrite load_arena_ok by (simpl; apply lookup_insert_eq).
  erewrite store_arena_ok by (simpl; apply lookup_insert_eq). simpl.
  erewrite load_arena_ok by (simpl; apply lookup_insert_eq).
  erewrite store_arena_ok by (simpl; apply lookup_insert_eq). simpl.
  unfold set_slot. simpl.
  rewrite decide_True by (unfold MAX_LAZY_STACK in *; lia).
  unfold mret, M_ret. f_equal.
  - unfold uint8_t. apply Z.mod_small. unfold MAX_LAZY_STACK in *. lia.
  - f_equal. rewrite !insert_insert_eq.
    unfold set_offset, set_size, set_memory. simpl.
    rewrite (insert_insert_ne _ (Pos.succ (next s)) (next s)) by done.
    by rewrite insert_insert_eq.
Qed.

Lemma destroy_loop_done fuel context s :
  top (lazy_stack s) < context → destroy_loop fuel context s = Ok tt s.
Proof.
  intros Ht. destruct fuel; unfold destroy_loop, mbind, M_bind, get_top; simpl;
    by rewrite bool_decide_false by lia.
Qed.

Lemma destroy_loop_step fuel context s b a m :
  context ≤ top (lazy_stack s) →
  0 ≤ top (lazy_stack s) < MAX_LAZY_STACK →
  arena_at s (Z.to_nat (top (lazy_stack s))) = Some (b, a, m) →
  destroy_loop (S fuel) context s = destroy_loop fuel context (pop s b m).
Proof.
  intros Hc Ht Ha. pose proof (arena_at_blocks_ne _ _ _ _ _ Ha) as Hne.
  apply arena_at_Some in Ha as (H1 & H2 & H3 & H4).
  cbn [destroy_loop]. unfold mbind at 1. unfold M_bind at 1. unfold get_top at 1.
  rewrite bool_decide_true by lia.
  unfold mbind at 1 2 3 4 5. unfold M_bind at 1 2 3 4 5.
  rewrite (get_slot_ok _ _ _ Ht H1). unfold set_top.
  erewrite load_arena_ok by (simpl; exact H2).
  rewrite H3. erewrite free_ok by (simpl; exact H4).
  erewrite free_ok by (simpl; rewrite lookup_delete_ne by done; exact H2).
  done.
Qed.

(** ** Preservation of the invariant *)

Lemma owned_at_in_heap s i x : x ∈ owned_at s i → is_Some (heap s !! x).
Proof.
  rewrite elem_of_owned_at. intros (b & a & m & Ha & Hx).
  apply arena_at_Some in Ha as (_ & H2 & _ & H4).
  destruct Hx as [-> | ->]; eauto.
Qed.

Lemma live_prefix s s' :
  0 ≤ depth s' ≤ depth s →
  live s = live s' ++ seq (Z.to_nat (depth s')) (Z.to_nat (depth s) - Z.to_nat (depth s')).
Proof.
  intros Hd. unfold live.
  replace (Z.to_nat (depth s))
    with (Z.to_nat (depth s') + (Z.to_nat (depth s) - Z.to_nat (depth s')))%nat at 1
    by lia.
  by rewrite seq_app.
Qed.

(** A store whose open contexts own the blocks they owned in a
    well-formed store, and are individually sound, is well formed. *)
Lemma wf_frame s s' :
  wf s →
  0 ≤ depth s' ≤ depth s →
  length (arenas (lazy_stack s')) = Z.to_nat MAX_LAZY_STACK →
  (∀ i, Z.of_nat i < depth s' → owned_at s' i = owned_at s i ∧ arena_good s' i) →
  map_Forall (λ b _, (b < next s')%positive) (heap s') →
  wf s'.
Proof.
  intros Hwf Hd Hlen Hi Hfresh. constructor; [|done| | |done].
  - pose proof (wf_depth _ Hwf). lia.
  - apply Forall_forall. intros i Hl. apply elem_of_live in Hl. by apply Hi.
  - pose proof (wf_nodup _ Hwf) as Hnd. unfold owned in *.
    rewrite (live_prefix s s' Hd), owned_by_app in Hnd.
    apply NoDup_app in Hnd as (Hnd & _ & _).
    rewrite (owned_by_ext s s'); [done|].
    intros i Hl. apply elem_of_live in Hl. by apply Hi.
Qed.

Lemma owned_at_of_arena_at s s' i :
  arena_at s' i = arena_at s i → owned_at s' i = owned_at s i.
Proof. unfold owned_at. by intros ->. Qed.

Lemma arena_good_of_arena_at s s' i :
  arena_at s' i = arena_at s i → arena_good s i → arena_good s' i.
Proof. unfold arena_good. by intros ->. Qed.

Lemma wf_arena_good s i : wf s → Z.of_nat i < depth s → arena_good s i.
Proof.
  intros Hwf Hi. pose proof (wf_arenas _ Hwf) as HF.
  rewrite Forall_forall in HF. apply HF. by apply elem_of_live.
Qed.

(** Rewriting the header of the top context, keeping [memory] and
    [size], keeps the store well formed when the new offset is in range. *)
Lemma wf_set_offset s b a m k :
  wf s → 0 ≤ top (lazy_stack s) →
  arena_at s (Z.to_nat (top (lazy_stack s))) = Some (b, a, m) →
  0 ≤ k ≤ size a →
  wf {| heap := <[b := CArena (set_offset a k)]> (heap s);
        next := next s; lazy_stack := lazy_stack s |}.
Proof.
  intros Hwf Ht Ha Hk.
  set (s' := {| heap := _; next := _; lazy_stack := _ |}).
  pose proof (arena_at_blocks_ne _ _ _ _ _ Ha) as Hbm.
  assert (arena_at s' (Z.to_nat (top (lazy_stack s)))
          = Some (b, set_offset a k, m)) as Ha'.
  { apply arena_at_Some in Ha as (H1 & H2 & H3 & H4).
    apply arena_at_Some. simpl. rewrite lookup_insert_eq.
    by rewrite lookup_insert_ne by done. }
  apply (wf_frame s s' Hwf);
    [pose proof (wf_depth _ Hwf); unfold depth in *; simpl; lia
    | apply (wf_length _ Hwf) | |].
  - intros i Hi.
    destruct (decide (i = Z.to_nat (top (lazy_stack s)))) as [->|Hne].
    + unfold owned_at, arena_good. rewrite Ha, Ha'. simpl. split; [done|].
      pose proof (wf_arena_good s _ Hwf Hi) as Hg.
      unfold arena_good in Hg. rewrite Ha in Hg. lia.
    + destruct (wf_arena_at s i Hwf Hi) as (bi & ai & mi & Hai & _).
      assert (Z.of_nat (Z.to_nat (top (lazy_stack s))) < depth s) as Htop
        by (unfold depth; lia).
      destruct (wf_disjoint s i _ _ _ _ _ _ _ Hwf Hi Htop Hne Hai Ha)
        as (N1 & N2 & N3 & N4).
      assert (arena_at s' i = arena_at s i) as E.
      { rewrite Hai. apply (arena_at_frame s s' i bi ai mi Hai); simpl;
          [done | by apply lookup_insert_ne | by apply lookup_insert_ne]. }
      split; [by apply owned_at_of_arena_at|].
      apply (arena_good_of_arena_at s s' i E). by apply wf_arena_good.
  - simpl. apply map_Forall_insert_2; [|apply (wf_fresh _ Hwf)].
    apply arena_at_Some in Ha as (_ & H2 & _).
    by apply (wf_live_block s b _ Hwf H2).
Qed.

Lemma wf_pop s b a m :
  wf s → 0 ≤ top (lazy_stack s) →
  arena_at s (Z.to_nat (top (lazy_stack s))) = Some (b, a, m) →
  wf (pop s b m) ∧
  ∀ i, Z.of_nat i < depth (pop s b m) → arena_at (pop s b m) i = arena_at s i.
Proof.
  intros Hwf Ht Ha.
  assert (∀ i, Z.of_nat i < depth (pop s b m) →
               arena_at (pop s b m) i = arena_at s i) as Hsame.
  { intros i Hi. unfold depth, pop in Hi. simpl in Hi.
    assert (Z.of_nat i < depth s) as Hi' by (unfold depth; lia).
    assert (Z.of_nat (Z.to_nat (top (lazy_stack s))) < depth s) as Htop
      by (unfold depth; lia).
    assert (i ≠ Z.to_nat (top (lazy_stack s))) as Hne by lia.
    destruct (wf_arena_at s i Hwf Hi') as (bi & ai & mi & Hai & _).
    destruct (wf_disjoint s i _ _ _ _ _ _ _ Hwf Hi' Htop Hne Hai Ha)
      as (N1 & N2 & N3 & N4).
    rewrite Hai. apply (arena_at_frame s _ i bi ai mi Hai); simpl; [done| |];
      by rewrite !lookup_delete_ne by done. }
  split; [|done].
  apply (wf_frame s _ Hwf).
  - unfold depth, pop. simpl. lia.
  - apply (wf_length _ Hwf).
  - intros i Hi. split; [by apply owned_at_of_arena_at, Hsame|].
    apply (arena_good_of_arena_at s _ i (Hsame i Hi)).
    apply wf_arena_good; [done|]. unfold depth, pop in *. simpl in Hi. lia.
  - simpl. do 2 apply map_Forall_delete. apply (wf_fresh _ Hwf).
Qed.

Lemma arena_at_push_below s n i :
  wf s → Z.of_nat i < depth s → arena_at (push s n) i = arena_at s i.
Proof.
  intros Hwf Hi.
  destruct (wf_arena_at s i Hwf Hi) as (b & a & m & Ha & _).
  rewrite Ha. apply (arena_at_frame s _ i b a m Ha).
  - simpl. apply list_lookup_insert_ne. unfold depth in Hi. lia.
  - apply arena_at_Some in Ha as (_ & H2 & _).
    apply (wf_live_block _ _ _ Hwf) in H2.
    simpl. rewrite !lookup_insert_ne by lia. done.
  - apply arena_at_Some in Ha as (_ & _ & _ & H4).
    apply (wf_live_block _ _ _ Hwf) in H4.
    simpl. rewrite !lookup_insert_ne by lia. done.
Qed.

Lemma arena_at_push_top s n :
  wf s → depth s < MAX_LAZY_STACK →
  arena_at (push s n) (Z.to_nat (depth s)) =
    Some (next s, {| memory := Ptr (Pos.succ (next s)) 0; size := n; offset := 0 |},
          Pos.succ (next s)).
Proof.
  intros Hwf Hd. pose proof (wf_depth _ Hwf) as Hd0.
  apply arena_at_Some. simpl. repeat split.
  - apply list_lookup_insert_eq. rewrite (wf_length _ Hwf).
    unfold depth in *. lia.
  - apply lookup_insert_eq.
  - rewrite lookup_insert_ne by lia. apply lookup_insert_eq.
Qed.

Lemma wf_push s n :
  wf s → depth s < MAX_LAZY_STACK → is_size_t n → wf (push s n).
Proof.
  intros Hwf Hd Hn. pose proof (wf_depth _ Hwf) as Hd0.
  assert (live (push s n) = live s ++ [Z.to_nat (depth s)]) as Hlive.
  { unfold live. replace (Z.to_nat (depth (push s n))) with (S (Z.to_nat (depth s)))
      by (unfold depth, push; simpl; unfold depth in Hd0; lia).
    by rewrite seq_S. }
  assert (owned_by (push s n) (live s) = owned s) as Hown.
  { apply owned_by_ext. intros i Hi. apply elem_of_live in Hi.
    apply owned_at_of_arena_at. by apply arena_at_push_below. }
  constructor.
  - unfold depth, push in *. simpl. lia.
  - simpl. rewrite length_insert. apply (wf_length _ Hwf).
  - rewrite Hlive. apply Forall_app. split.
    + apply Forall_forall. intros i Hi. apply elem_of_live in Hi.
      apply (arena_good_of_arena_at s); [by apply arena_at_push_below|].
      by apply wf_arena_good.
    + apply Forall_singleton. unfold arena_good.
      rewrite (arena_at_push_top s n Hwf Hd). simpl.
      unfold is_size_t in Hn. lia.
  - unfold owned. rewrite Hlive, owned_by_app, Hown.
    unfold owned_by. simpl. unfold owned_at.
    rewrite (arena_at_push_top s n Hwf Hd), app_nil_r.
    apply NoDup_app. split; [apply (wf_nodup _ Hwf)|]. split.
    + intros x Hx. apply elem_of_owned_by in Hx as (i & _ & Hx).
      apply owned_at_in_heap in Hx as [c Hc].
      apply (wf_live_block _ _ _ Hwf) in Hc.
      rewrite !elem_of_cons, elem_of_nil. intros [->|[->|[]]]; lia.
    + apply NoDup_cons. split; [|apply NoDup_singleton].
      rewrite elem_of_cons, elem_of_nil. lia.
  - simpl. apply map_Forall_insert_2; [lia|].
    apply map_Forall_insert_2; [lia|].
    eapply map_Forall_impl; [apply (wf_fresh _ Hwf)|]. simpl. intros; lia.
Qed.

(** Moving the supply of block names forward keeps the store well formed. *)
Lemma wf_skip_block s :
  wf s →
  wf {| heap := heap s; next := Pos.succ (next s); lazy_stack := lazy_stack s |}.
Proof.
  intros Hwf. apply (wf_frame s _ Hwf).
  - pose proof (wf_depth _ Hwf). unfold depth in *. simpl. lia.
  - apply (wf_length _ Hwf).
  - intros i Hi. split; [done|]. by apply (wf_arena_good s i Hwf).
  - simpl. eapply map_Forall_impl; [apply (wf_fresh _ Hwf)|]. simpl. intros; lia.
Qed.

(** ** The loop of [destroy_lazy_context] *)

Lemma released_none s k : depth s ≤ k → released s k = [].
Proof.
  intros Hk. unfold released.
  by replace (Z.to_nat (depth s) - Z.to_nat k)%nat with 0%nat by lia.
Qed.

Lemma released_pop s b a m k :
  wf s → 0 ≤ k ≤ top (lazy_stack s) →
  arena_at s (Z.to_nat (top (lazy_stack s))) = Some (b, a, m) →
  released s k = released (pop s b m) k ++ [b; m].
Proof.
  intros Hwf Hk Ha. destruct (wf_pop s b a m Hwf ltac:(lia) Ha) as [_ Hsame].
  unfold released.
  replace (Z.to_nat (depth s) - Z.to_nat k)%nat
    with (S (Z.to_nat (depth (pop s b m)) - Z.to_nat k))
    by (unfold depth, pop; simpl; lia).
  rewrite seq_S, owned_by_app. f_equal.
  - symmetry. apply owned_by_ext. intros i Hi. apply elem_of_seq in Hi.
    apply owned_at_of_arena_at, Hsame. lia.
  - replace (Z.to_nat k + (Z.to_nat (depth (pop s b m)) - Z.to_nat k))%nat
      with (Z.to_nat (top (lazy_stack s)))
      by (unfold depth, pop; simpl; lia).
    unfold owned_by. simpl. unfold owned_at. by rewrite Ha.
Qed.

Lemma popped_to_refl context s :
  wf s → depth s ≤ context → popped_to context s s.
Proof.
  intros Hwf Hd. unfold popped_to. rewrite released_none by done.
  split; [done|]. split; [lia|]. split; [done|]. split; [done|].
  split; [|done]. intros x. by rewrite decide_False by apply not_elem_of_nil.
Qed.

Lemma destroy_loop_spec fuel context s :
  wf s → 0 ≤ context →
  (Z.to_nat (depth s) - Z.to_nat context ≤ fuel)%nat →
  ∃ s', destroy_loop fuel context s = Ok tt s' ∧ popped_to context s s'.
Proof.
  revert s. induction fuel as [|fuel IH]; intros s Hwf Hc Hfuel;
    pose proof (wf_depth _ Hwf) as Hd;
    (destruct (decide (top (lazy_stack s) < context)) as [Hlt|Hge];
     [ exists s; rewrite destroy_loop_done by done;
       split; [done|]; apply popped_to_refl; [done|unfold depth; lia] | ]).
  - unfold depth in *. lia.
  - assert (0 ≤ top (lazy_stack s) < MAX_LAZY_STACK) as Ht
      by (unfold depth in *; lia).
    destruct (wf_top_arena s Hwf ltac:(lia)) as (b & a & m & Ha & _).
    destruct (wf_pop s b a m Hwf ltac:(lia) Ha) as [Hwf1 Hsame].
    destruct (IH (pop s b m) Hwf1 Hc)
      as (s' & Hrun & Hwf' & Hd' & Har & Hnx & Hheap & Hat).
    { unfold depth, pop in *. simpl. lia. }
    exists s'. rewrite (destroy_loop_step _ _ _ b a m) by (done || lia).
    split; [done|]. split; [done|].
    assert (depth (pop s b m) = depth s - 1) as Hdp
      by (unfold depth, pop; simpl; lia).
    split; [unfold depth in *; lia|]. split; [done|]. split; [done|]. split.
    + intros x. rewrite Hheap.
      rewrite (released_pop s b a m context Hwf ltac:(lia) Ha).
      unfold pop at 2. simpl.
      destruct (decide (x ∈ released (pop s b m) context)) as [Hin|Hnin].
      * rewrite decide_True; [done|]. apply elem_of_app. by left.
      * destruct (decide (x = b)) as [->|Hb].
        { rewrite lookup_delete_eq, decide_True; [done|].
          rewrite elem_of_app, !elem_of_cons. auto. }
        rewrite lookup_delete_ne by done.
        destruct (decide (x = m)) as [->|Hm].
        { rewrite lookup_delete_eq, decide_True; [done|].
          rewrite elem_of_app, !elem_of_cons. auto. }
        rewrite lookup_delete_ne by done.
        rewrite decide_False; [done|].
        rewrite elem_of_app, !elem_of_cons, elem_of_nil. tauto.
    + intros i Hi. rewrite Hat by done. apply Hsame. lia.
Qed.

(** Any budget of at least the number of contexts to pop gives the
    same result: the loop never runs out of iterations. *)
Lemma destroy_loop_fuel fuel1 fuel2 context s :
  wf s → 0 ≤ context →
  (Z.to_nat (depth s) - Z.to_nat context ≤ fuel1)%nat →
  (Z.to_nat (depth s) - Z.to_nat context ≤ fuel2)%nat →
  destroy_loop fuel1 context s = destroy_loop fuel2 context s.
Proof.
  revert fuel2 s. induction fuel1 as [|fuel1 IH]; intros fuel2 s Hwf Hc H1 H2;
    pose proof (wf_depth _ Hwf) as Hd;
    (destruct (decide (top (lazy_stack s) < context)) as [Hlt|Hge];
     [ by rewrite !destroy_loop_done by done | ]).
  - unfold depth in *. lia.
  - destruct fuel2 as [|fuel2]; [unfold depth in *; lia|].
    assert (0 ≤ top (lazy_stack s) < MAX_LAZY_STACK) as Ht
      by (unfold depth in *; lia).
    destruct (wf_top_arena s Hwf ltac:(lia)) as (b & a & m & Ha & _).
    destruct (wf_pop s b a m Hwf ltac:(lia) Ha) as [Hwf1 _].
    rewrite !(destroy_loop_step _ _ _ b a m) by (done || lia).
    apply IH; [done|done| |]; unfold depth, pop in *; simpl; lia.
Qed.

Lemma destroy_lazy_context_empty s context :
  top (lazy_stack s) < 0 → destroy_lazy_context context s = Ok tt s.
Proof.
  intros Ht. unfold destroy_lazy_context, mbind, M_bind, get_top. simpl.
  by rewrite bool_decide_true.
Qed.

Lemma destroy_lazy_context_spec context s :
  wf s → 0 ≤ context →
  ∃ s', destroy_lazy_context context s = Ok tt s' ∧ popped_to context s s'.
Proof.
  intros Hwf Hc. pose proof (wf_depth _ Hwf) as Hd.
  destruct (decide (top (lazy_stack s) < 0)) as [Hlt|Hge].
  - exists s. rewrite destroy_lazy_context_empty by done.
    split; [done|]. apply popped_to_refl; [done|]. unfold depth. lia.
  - unfold destroy_lazy_context, mbind, M_bind, get_top. simpl.
    rewrite bool_decide_false by done.
    apply destroy_loop_spec; [done|done|]. unfold depth. lia.
Qed.

(** The budget [destroy_lazy_context] gives its loop is enough: a
    larger one changes nothing. *)
Lemma destroy_lazy_context_budget fuel context s :
  wf s → 0 ≤ context → 0 ≤ top (lazy_stack s) →
  (Z.to_nat (depth s) ≤ fuel)%nat →
  destroy_loop fuel context s = destroy_lazy_context context s.
Proof.
  intros Hwf Hc Ht Hfuel.
  unfold destroy_lazy_context, mbind, M_bind, get_top. simpl.
  rewrite bool_decide_false by lia.
  apply destroy_loop_fuel; [done|done|lia|unfold depth; lia].
Qed.

(** ** Every call is defined and keeps the store well formed *)

Lemma CONTEXT_ERROR_255 : CONTEXT_ERROR = 255.
Proof. reflexivity. Qed.

(** The possible results of [create_lazy_context]: the error value with
    the contexts as they were, or the new top index with the new
    context pushed. *)
Lemma create_lazy_context_cases s o n :
  wf s → is_size_t n →
  (∃ s', create_lazy_context o n s = Ok CONTEXT_ERROR s'
         ∧ wf s'
         ∧ heap s' = heap s ∧ lazy_stack s' = lazy_stack s
         ∧ (depth s = MAX_LAZY_STACK ∨ arena_ok o = false ∨ memory_ok o = false))
  ∨ (create_lazy_context o n s = Ok (depth s) (push s n)
     ∧ wf (push s n)
     ∧ depth s < MAX_LAZY_STACK
     ∧ arena_ok o = true ∧ memory_ok o = true).
Proof.
  intros Hwf Hn. pose proof (wf_depth _ Hwf) as Hd.
  destruct (decide (depth s = MAX_LAZY_STACK)) as [Hfull|Hroom].
  { left. exists s. rewrite create_lazy_context_full;
      [auto 10 | unfold depth in *; lia
      | unfold depth, MAX_LAZY_STACK, INT_MAX in *; lia]. }
  assert (top (lazy_stack s) + 1 < MAX_LAZY_STACK) as Ht by (unfold depth in *; lia).
  destruct (arena_ok o) eqn:Ho1.
  2: { left. exists s. rewrite create_lazy_context_no_header by done. auto 10. }
  destruct (memory_ok o) eqn:Ho2.
  2: { left. eexists.
       rewrite create_lazy_context_no_buffer by (done || by apply wf_next_fresh).
       split; [done|]. split; [by apply wf_skip_block|]. auto. }
  right. rewrite create_lazy_context_exec;
    [ | done | unfold depth in *; lia | apply (wf_length _ Hwf) | done | done ].
  split; [done|]. split; [apply wf_push; (done || lia)|]. split; [lia|done].
Qed.

Lemma size_t_range n : 0 ≤ size_t n < SIZE_MOD.
Proof. unfold size_t. apply Z.mod_pos_bound. reflexivity. Qed.

Lemma lazy_alloc_wf s n :
  wf s → ∃ p s', lazy_alloc n s = Ok p s' ∧ wf s' ∧ lazy_stack s' = lazy_stack s.
Proof.
  intros Hwf. pose proof (wf_depth _ Hwf) as Hd.
  destruct (decide (top (lazy_stack s) < 0)) as [Hlt|Hge].
  { exists NULL, s. by rewrite lazy_alloc_empty. }
  destruct (wf_top_arena s Hwf ltac:(lia)) as (b & a & m & Ha & Ho & Hs).
  rewrite (lazy_alloc_exec s n b a m) by (done || unfold depth in *; lia).
  case_bool_decide; [by eauto|].
  do 2 eexists. split; [done|]. split; [|done].
  apply (wf_set_offset s b a m); [done|lia|done|].
  pose proof (size_t_range (offset a + n)). lia.
Qed.

Lemma reset_lazy_context_wf s :
  wf s → ∃ s', reset_lazy_context s = Ok tt s' ∧ wf s' ∧ lazy_stack s' = lazy_stack s.
Proof.
  intros Hwf. pose proof (wf_depth _ Hwf) as Hd.
  destruct (decide (top (lazy_stack s) < 0)) as [Hlt|Hge].
  { exists s. by rewrite reset_lazy_context_empty. }
  destruct (wf_top_arena s Hwf ltac:(lia)) as (b & a & m & Ha & Ho & Hs).
  rewrite (reset_lazy_context_exec s b a m) by (done || unfold depth in *; lia).
  eexists. split; [done|]. split; [|done].
  apply (wf_set_offset s b a m); [done|lia|done|lia].
Qed.

Lemma run_op_wf s o :
  wf s → valid_op o → ∃ v s', run_op o s = Ok v s' ∧ wf s'.
Proof.
  intros Hwf Hv. destruct o as [orc n|n| |context]; simpl in Hv;
    unfold run_op, mbind, M_bind.
  - destruct (create_lazy_context_cases s orc n Hwf Hv)
      as [(s' & -> & Hwf' & _)|(-> & Hwf' & _)]; eauto.
  - destruct (lazy_alloc_wf s n Hwf) as (p & s' & -> & Hwf' & _). eauto.
  - destruct (reset_lazy_context_wf s Hwf) as (s' & -> & Hwf' & _). eauto.
  - destruct (destroy_lazy_context_spec context s Hwf ltac:(unfold is_uint8_t in Hv; lia))
      as (s' & -> & Hwf' & _). eauto.
Qed.

Lemma reachable_wf s : reachable s → wf s.
Proof.
  induction 1 as [|s o v s' _ IH Hv Hrun]; [apply wf_initial|].
  destruct (run_op_wf s o IH Hv) as (v' & s'' & Hrun' & Hwf).
  rewrite Hrun in Hrun'. by injection Hrun' as _ ->.
Qed.

Lemma run_ops_reachable os s :
  reachable s → Forall valid_op os →
  ∃ vs s', run_ops os s = Ok vs s' ∧ reachable s'.
Proof.
  revert s. induction os as [|o os IH]; intros s Hs Hv.
  - exists [], s. done.
  - apply Forall_cons in Hv as [Ho Hos].
    destruct (run_op_wf s o (reachable_wf _ Hs) Ho) as (v & s1 & Hrun & _).
    destruct (IH s1 (reach_step _ _ _ _ Hs Ho Hrun) Hos) as (vs & s' & Hruns & Hs').
    exists (v :: vs), s'. split; [|done].
    cbn [run_ops]. unfold mbind, M_bind. by rewrite Hrun, Hruns.
Qed.

Lemma state_after_reachable os :
  Forall valid_op os → reachable (state_after os).
Proof.
  intros Hv. unfold state_after.
  destruct (run_ops_reachable os initial_state reach_init Hv) as (vs & s' & -> & Hs').
  done.
Qed.

(** * The allocation routine *)

(** A request that fits, counted without wrap-around, is served at
    [memory + offset] and advances the offset by exactly its size. *)
Lemma lazy_alloc_fits s b a m n :
  wf s → 0 ≤ top (lazy_stack s) →
  arena_at s (Z.to_nat (top (lazy_stack s))) = Some (b, a, m) →
  0 ≤ n ≤ size a - offset a →
  lazy_alloc n s =
    Ok (Ptr m (offset a))
       {| heap := <[b := CArena (set_offset a (offset a + n))]> (heap s);
          next := next s; lazy_stack := lazy_stack s |}.
Proof.
  intros Hwf Ht Ha Hn. pose proof (wf_depth _ Hwf) as Hd.
  pose proof (wf_top_good s b a m Hwf Ht Ha) as Hg.
  rewrite (lazy_alloc_exec s n b a m) by (done || lia || unfold depth in *; lia).
  assert (size_t (offset a + n) = offset a + n) as ->
    by (unfold size_t; apply Z.mod_small; lia).
  by rewrite bool_decide_false by lia.
Qed.

(** A request larger than the remaining space is refused, the store
    untouched, as long as [offset + n] does not wrap around [size_t]. *)
Lemma lazy_alloc_refused_without_wrap s b a m n :
  wf s → 0 ≤ top (lazy_stack s) →
  arena_at s (Z.to_nat (top (lazy_stack s))) = Some (b, a, m) →
  size a - offset a < n → offset a + n < SIZE_MOD →
  lazy_alloc n s = Ok NULL s.
Proof.
  intros Hwf Ht Ha Hn Hw. pose proof (wf_depth _ Hwf) as Hd.
  pose proof (wf_top_good s b a m Hwf Ht Ha) as Hg.
  rewrite (lazy_alloc_exec s n b a m) by (done || lia || unfold depth in *; lia).
  assert (size_t (offset a + n) = offset a + n) as ->
    by (unfold size_t; apply Z.mod_small; lia).
  by rewrite bool_decide_true by lia.
Qed.

(** C1, at the input where the code departs from it. One context of
    100 bytes with offset 1 has 99 bytes left. A request of [SIZE_MAX]
    bytes exceeds that, yet [offset + size] wraps to 0 in the test of
    line 95, so the call returns [memory + 1] instead of [NULL] and
    moves the offset from 1 back to 0. *)
Theorem lazy_alloc_oversized_request_wraps :
  reachable one_context_used
  ∧ arena_at one_context_used 0
      = Some (1%positive,
              {| memory := Ptr 2%positive 0; size := 100; offset := 1 |},
              2%positive)
  ∧ top (lazy_stack one_context_used) = 0
  ∧ is_size_t SIZE_MAX
  ∧ 100 - 1 < SIZE_MAX
  ∧ ∃ s', lazy_alloc SIZE_MAX one_context_used = Ok (Ptr 2%positive 1) s'
          ∧ arena_at s' 0
              = Some (1%positive,
                      {| memory := Ptr 2%positive 0; size := 100; offset := 0 |},
                      2%positive).
Proof.
  split; [apply state_after_reachable; apply (bool_decide_unpack _); by vm_compute|].
  split; [by vm_compute|]. split; [by vm_compute|].
  split; [by vm_compute|]. split; [by vm_compute|].
  eexists. split; [vm_compute; reflexivity|]. by vm_compute.
Qed.

(** C4, at the input where the code departs from it. In one context
    of 100 bytes, the successful calls [lazy_alloc(1)],
    [lazy_alloc(SIZE_MAX)], [lazy_alloc(1)] return [memory + 0],
    [memory + 1] and [memory + 0] again: the first and third ranges are
    the same byte, and the sizes served add up to more than 100. The
    cause is the wrap-around of line 95, as for C1. *)
Theorem lazy_alloc_wrap_hands_out_memory_twice :
  ∃ s,
    run_ops [Create (all_ok junk0) 100; Alloc 1; Alloc SIZE_MAX; Alloc 1]
            initial_state
      = Ok [VContext 0; VPtr (Ptr 2%positive 0); VPtr (Ptr 2%positive 1);
            VPtr (Ptr 2%positive 0)] s
    ∧ Forall valid_op [Create (all_ok junk0) 100; Alloc 1; Alloc SIZE_MAX; Alloc 1]
    ∧ overlaps (Ptr 2%positive 0) 1 (Ptr 2%positive 0) 1 = true
    ∧ 100 < 1 + SIZE_MAX + 1.
Proof.
  eexists. split; [vm_compute; reflexivity|].
  split; [apply (bool_decide_unpack _); by vm_compute|].
  split; by vm_compute.
Qed.

(** What the specification asks of allocation sequences does hold as
    long as no request can wrap: in a context of size [S], requests of
    at most [SIZE_MAX - S] bytes are served back to back, so the ranges
    served are pairwise disjoint and their sizes add up to at most the
    space that was left. *)
Lemma laid_out_lower m off l i p n :
  laid_out m off l → l !! i = Some (p, n) →
  ∃ o, p = Ptr m o ∧ off ≤ o ∧ 0 ≤ n.
Proof.
  revert off i. induction l as [|[p' n'] l IH]; intros off i Hl Hi; [done|].
  destruct Hl as (-> & Hn & Hl). destruct i as [|i]; simpl in Hi.
  - injection Hi as <- <-. exists off. split; [done|lia].
  - destruct (IH _ _ Hl Hi) as (o & -> & Ho & Hn0). exists o. split; [done|lia].
Qed.

Lemma laid_out_disjoint m off l i j p1 n1 p2 n2 :
  laid_out m off l → (i < j)%nat →
  l !! i = Some (p1, n1) → l !! j = Some (p2, n2) →
  overlaps p1 n1 p2 n2 = false.
Proof.
  revert off i j. induction l as [|[p' n'] l IH]; intros off i j Hl Hij Hi Hj; [done|].
  destruct Hl as (-> & Hn & Hl). destruct j as [|j]; [lia|]. simpl in Hj.
  destruct i as [|i]; simpl in Hi.
  - injection Hi as <- <-.
    destruct (laid_out_lower _ _ _ _ _ _ Hl Hj) as (o & -> & Ho & Hn2).
    unfold overlaps. apply bool_decide_eq_false. lia.
  - apply (IH _ i j Hl); (done || lia).
Qed.

Lemma lazy_allocs_without_wrap ns s b a m :
  wf s → 0 ≤ top (lazy_stack s) →
  arena_at s (Z.to_nat (top (lazy_stack s))) = Some (b, a, m) →
  Forall (λ n, 0 ≤ n ∧ size a + n < SIZE_MOD) ns →
  ∃ ps s', lazy_allocs ns s = Ok ps s'
    ∧ laid_out m (offset a) (served ns ps)
    ∧ total_size (served ns ps) ≤ size a - offset a.
Proof.
  revert s a. induction ns as [|n ns IH]; intros s a Hwf Ht Ha Hns.
  { exists [], s. pose proof (wf_top_good s b a m Hwf Ht Ha).
    split; [done|]. split; [done|]. unfold total_size. simpl. lia. }
  apply Forall_cons in Hns as [[Hn Hw] Hns].
  pose proof (wf_top_good s b a m Hwf Ht Ha) as Hg.
  pose proof (wf_depth _ Hwf) as Hd.
  cbn [lazy_allocs]. unfold mbind, M_bind.
  destruct (decide (n ≤ size a - offset a)) as [Hfit|Hbig].
  - rewrite (lazy_alloc_fits s b a m n) by (done || lia).
    set (s1 := {| heap := _; next := _; lazy_stack := _ |}).
    assert (wf s1) as Hwf1 by (apply (wf_set_offset s b a m); (done || lia)).
    assert (arena_at s1 (Z.to_nat (top (lazy_stack s)))
            = Some (b, set_offset a (offset a + n), m)) as Ha1.
    { pose proof (arena_at_blocks_ne _ _ _ _ _ Ha) as Hbm.
      apply arena_at_Some in Ha as (H1 & H2 & H3 & H4).
      apply arena_at_Some. simpl. rewrite lookup_insert_eq.
      by rewrite lookup_insert_ne by done. }
    destruct (IH s1 (set_offset a (offset a + n)) Hwf1 Ht Ha1 Hns)
      as (ps & s' & Hr & Hl & Hsum).
    rewrite Hr. exists (Ptr m (offset a) :: ps), s'. split; [done|].
    cbn [served]. rewrite decide_False by done.
    change (total_size ((Ptr m (offset a), n) :: served ns ps))
      with (n + total_size (served ns ps)).
    cbn [set_offset offset size] in Hl, Hsum.
    split; [done|]. lia.
  - rewrite (lazy_alloc_refused_without_wrap s b a m n) by (done || lia).
    destruct (IH s a Hwf Ht Ha Hns) as (ps & s' & Hr & Hl & Hsum).
    rewrite Hr. exists (NULL :: ps), s'. split; [done|].
    cbn [served]. by rewrite decide_True by done.
Qed.

(** C8: on an empty stack [lazy_alloc] returns [NULL] for every
    requested size and leaves the store as it was; the stack is empty
    initially and after [destroy_lazy_context(0)] from any well-formed
    store. *)
Theorem lazy_alloc_empty_stack :
  (∀ s n, depth s = 0 → lazy_alloc n s = Ok NULL s)
  ∧ depth initial_state = 0
  ∧ (∀ s, wf s → ∃ s', destroy_lazy_context 0 s = Ok tt s' ∧ depth s' = 0).
Proof.
  split; [|split; [done|]].
  - intros s n Hd. apply lazy_alloc_empty. unfold depth in Hd. lia.
  - intros s Hwf. pose proof (wf_depth _ Hwf) as Hd.
    destruct (destroy_lazy_context_spec 0 s Hwf ltac:(lia)) as (s' & Hrun & _ & Hd' & _).
    exists s'. split; [done|]. lia.
Qed.

Lemma lazy_alloc_empty_stack_witness :
  depth initial_state = 0 ∧ lazy_alloc 7 initial_state = Ok NULL initial_state.
Proof.
  split; [reflexivity|].
  apply (proj1 lazy_alloc_empty_stack initial_state 7). reflexivity.
Defined.

(** C10: with a context open, [lazy_alloc(0)] succeeds: it returns
    [memory + offset] of the top arena, which is not [NULL], and leaves
    the store, the offset included, as it was; this holds for every
    offset the arena can have, [offset = size] included. *)
Theorem lazy_alloc_zero s :
  wf s → 0 < depth s →
  ∃ b a m,
    arena_at s (Z.to_nat (top (lazy_stack s))) = Some (b, a, m)
    ∧ memory a = Ptr m 0
    ∧ lazy_alloc 0 s = Ok (Ptr m (offset a)) s
    ∧ Ptr m (offset a) ≠ NULL.
Proof.
  intros Hwf Hd. assert (0 ≤ top (lazy_stack s)) as Ht by (unfold depth in Hd; lia).
  destruct (wf_top_arena s Hwf Ht) as (b & a & m & Ha & Hg).
  exists b, a, m. split; [done|].
  rewrite (lazy_alloc_fits s b a m 0) by (done || lia).
  apply arena_at_Some in Ha as (_ & H2 & H3 & _).
  split; [done|]. split; [|done]. f_equal.
  destruct s as [h nx st]. simpl in *. f_equal.
  rewrite Z.add_0_r. destruct a. unfold set_offset. simpl. by apply insert_id.
Qed.

Lemma lazy_alloc_zero_witness :
  wf one_context_exhausted ∧ 0 < depth one_context_exhausted ∧
  ∃ b a m,
    arena_at one_context_exhausted 0 = Some (b, a, m)
    ∧ memory a = Ptr m 0
    ∧ lazy_alloc 0 one_context_exhausted = Ok (Ptr m (offset a)) one_context_exhausted
    ∧ Ptr m (offset a) ≠ NULL.
Proof.
  assert (wf one_context_exhausted) as Hwf
    by (apply (bool_decide_unpack _); by vm_compute).
  assert (0 < depth one_context_exhausted) as Hd by (by vm_compute).
  split; [done|]. split; [done|].
  exact (lazy_alloc_zero one_context_exhausted Hwf Hd).
Defined.

(** * Reset *)

(** C6: on a non-empty stack [reset_lazy_context] sets the top arena's
    offset to 0 and leaves its [memory] and [size], and the buffer
    itself, as they were; a [lazy_alloc] of the full [size] right after
    it succeeds, at the start of the buffer. On an empty stack
    [reset_lazy_context] changes nothing. *)
Theorem reset_lazy_context_rewinds s :
  wf s →
  (0 < depth s →
   ∃ b a m s1 a1 s2,
     arena_at s (Z.to_nat (top (lazy_stack s))) = Some (b, a, m)
     ∧ reset_lazy_context s = Ok tt s1
     ∧ lazy_stack s1 = lazy_stack s
     ∧ arena_at s1 (Z.to_nat (top (lazy_stack s))) = Some (b, a1, m)
     ∧ offset a1 = 0 ∧ memory a1 = memory a ∧ size a1 = size a
     ∧ heap s1 !! m = heap s !! m
     ∧ lazy_alloc (size a) s1 = Ok (Ptr m 0) s2
     ∧ Ptr m 0 ≠ NULL)
  ∧ (depth s = 0 → reset_lazy_context s = Ok tt s).
Proof.
  intros Hwf. split.
  - intros Hd. assert (0 ≤ top (lazy_stack s)) as Ht by (unfold depth in Hd; lia).
    pose proof (wf_depth _ Hwf) as Hd'.
    destruct (wf_top_arena s Hwf Ht) as (b & a & m & Ha & Hg).
    pose proof (arena_at_blocks_ne _ _ _ _ _ Ha) as Hbm.
    set (s1 := {| heap := <[b := CArena (set_offset a 0)]> (heap s);
                  next := next s; lazy_stack := lazy_stack s |}).
    assert (wf s1) as Hwf1 by (apply (wf_set_offset s b a m); (done || lia)).
    assert (arena_at s1 (Z.to_nat (top (lazy_stack s))) = Some (b, set_offset a 0, m))
      as Ha1.
    { apply arena_at_Some in Ha as (H1 & H2 & H3 & H4).
      apply arena_at_Some. simpl. rewrite lookup_insert_eq.
      by rewrite lookup_insert_ne by done. }
    exists b, a, m, s1, (set_offset a 0). eexists.
    split; [done|]. split.
    { apply (reset_lazy_context_exec s b a m); [unfold depth in *; lia|done]. }
    split; [done|]. split; [done|]. split; [done|]. split; [done|].
    split; [done|]. split; [simpl; by rewrite lookup_insert_ne by done|].
    split; [|done].
    apply (lazy_alloc_fits s1 b (set_offset a 0) m (size a)); simpl; (done || lia).
  - intros Hd. apply reset_lazy_context_empty. unfold depth in Hd. lia.
Qed.

Lemma reset_lazy_context_rewinds_witness :
  ∃ s1 s2,
    reset_lazy_context one_context_exhausted = Ok tt s1
    ∧ lazy_alloc 100 one_context_exhausted = Ok NULL one_context_exhausted
    ∧ lazy_alloc 100 s1 = Ok (Ptr 2%positive 0) s2.
Proof.
  assert (wf one_context_exhausted) as Hwf
    by (apply (bool_decide_unpack _); by vm_compute).
  assert (0 < depth one_context_exhausted) as Hd by (by vm_compute).
  destruct (proj1 (reset_lazy_context_rewinds one_context_exhausted Hwf) Hd)
    as (b & a & m & s1 & a1 & s2 & Ha & Hr & _ & _ & _ & _ & _ & _ & Hal & _).
  exists s1, s2. split; [exact Hr|]. split; [by vm_compute|].
  assert (Some (b, a, m) = Some (1%positive,
            {| memory := Ptr 2%positive 0; size := 100; offset := 100 |},
            2%positive)) as E by (rewrite <- Ha; by vm_compute).
  injection E as -> -> ->. exact Hal.
Defined.

(** * Destroying contexts *)

Lemma elem_of_released s k x :
  0 ≤ k →
  x ∈ released s k ↔
    ∃ i b a m, k ≤ Z.of_nat i < depth s
               ∧ arena_at s i = Some (b, a, m) ∧ (x = b ∨ x = m).
Proof.
  intros Hk. unfold released. rewrite elem_of_owned_by. split.
  - intros (i & Hi & Hx). apply elem_of_seq in Hi.
    apply elem_of_owned_at in Hx as (b & a & m & Ha & Hx).
    exists i, b, a, m. split; [lia|done].
  - intros (i & b & a & m & Hi & Ha & Hx). exists i. split.
    + apply elem_of_seq. lia.
    + apply elem_of_owned_at. eauto.
Qed.

(** With the identifier above the top index nothing is popped. *)
Lemma destroy_lazy_context_above_top s context :
  top (lazy_stack s) < context → destroy_lazy_context context s = Ok tt s.
Proof.
  intros Ht. unfold destroy_lazy_context, mbind, M_bind, get_top. simpl.
  case_bool_decide; [done|]. by apply destroy_loop_done.
Qed.

(** C2: on a stack of depth [n > k], [destroy_lazy_context(k)] returns
    with depth [k]; the blocks it released are exactly the headers and
    buffers of the contexts at indices [k .. n-1] ([released s k]), all
    live before the call; every other block and every context below
    [k] is as before. The same call repeated changes nothing, and on an
    empty stack the call changes nothing. *)
Theorem destroy_lazy_context_cascade s k :
  wf s → is_uint8_t k →
  (k < depth s →
   ∃ s', destroy_lazy_context k s = Ok tt s'
     ∧ depth s' = k
     ∧ (∀ x, x ∈ released s k → is_Some (heap s !! x) ∧ heap s' !! x = None)
     ∧ (∀ x, x ∉ released s k → heap s' !! x = heap s !! x)
     ∧ (∀ i, Z.of_nat i < k → arena_at s' i = arena_at s i)
     ∧ destroy_lazy_context k s' = Ok tt s')
  ∧ (depth s = 0 → destroy_lazy_context k s = Ok tt s).
Proof.
  intros Hwf Hk. unfold is_uint8_t in Hk. split.
  - intros Hlt.
    destruct (destroy_lazy_context_spec k s Hwf ltac:(lia))
      as (s' & Hrun & Hwf' & Hd' & Har & Hnx & Hheap & Hat).
    assert (depth s' = k) as Hdk by lia.
    exists s'. split; [done|]. split; [done|]. split; [|split; [|split]].
    + intros x Hx. split.
      * apply elem_of_owned_by in Hx as (i & _ & Hx).
        by apply owned_at_in_heap in Hx.
      * by rewrite Hheap, decide_True.
    + intros x Hx. by rewrite Hheap, decide_False.
    + intros i Hi. apply Hat. lia.
    + apply destroy_lazy_context_above_top. unfold depth in Hdk. lia.
  - intros Hd. apply destroy_lazy_context_empty. unfold depth in Hd. lia.
Qed.

Lemma destroy_lazy_context_cascade_witness :
  released two_contexts 0 = [1%positive; 2%positive; 3%positive; 4%positive]
  ∧ ∃ s', destroy_lazy_context 0 two_contexts = Ok tt s'
          ∧ depth s' = 0
          ∧ destroy_lazy_context 0 s' = Ok tt s'.
Proof.
  split; [by vm_compute|].
  assert (wf two_contexts) as Hwf by (apply (bool_decide_unpack _); by vm_compute).
  assert (is_uint8_t 0) as Hk by (unfold is_uint8_t; lia).
  assert (0 < depth two_contexts) as Hd by (by vm_compute).
  destruct (proj1 (destroy_lazy_context_cascade two_contexts 0 Hwf Hk) Hd)
    as (s' & Hrun & Hd' & _ & _ & _ & Hagain).
  exists s'. repeat split; assumption.
Defined.

(** * Creating contexts *)

Lemma depth_push s n : depth (push s n) = depth s + 1.
Proof. reflexivity. Qed.

Lemma depth_same_stack s s' : lazy_stack s' = lazy_stack s → depth s' = depth s.
Proof. unfold depth. by intros ->. Qed.

Lemma seq_identifiers d n :
  d :: ((λ i, d + 1 + Z.of_nat i) <$> seq 0 n)
  = (λ i, d + Z.of_nat i) <$> seq 0 (S n).
Proof.
  cbn [seq fmap list_fmap]. rewrite Z.add_0_r. f_equal.
  rewrite <- fmap_S_seq, <- list_fmap_compose.
  apply list_fmap_ext. intros _ i _. simpl. lia.
Qed.

(** A call sequence without [destroy_lazy_context], from a well-formed
    store of depth [d]: the depth grows by the number of successful
    [create_lazy_context] calls; when all of them succeed they return
    [d, d+1, ...]; and all of them succeed when no [malloc] fails and
    the capacity is not exceeded. *)
Lemma run_ops_no_destroy os s :
  wf s → Forall valid_op os → Forall (λ o, is_destroy o = false) os →
  ∃ vs s', run_ops os s = Ok vs s'
    ∧ wf s'
    ∧ length (created vs) = creates os
    ∧ depth s ≤ depth s' ≤ depth s + Z.of_nat (creates os)
    ∧ (Forall (λ c, c ≠ CONTEXT_ERROR) (created vs) →
       created vs = (λ i, depth s + Z.of_nat i) <$> seq 0 (creates os)
       ∧ depth s' = depth s + Z.of_nat (creates os))
    ∧ (Forall malloc_succeeds os →
       depth s + Z.of_nat (creates os) ≤ MAX_LAZY_STACK →
       Forall (λ c, c ≠ CONTEXT_ERROR) (created vs)).
Proof.
  revert s. induction os as [|o os IH]; intros s Hwf Hv Hnd.
  { exists [], s. split; [done|]. split; [done|]. split; [done|].
    split; [unfold creates; simpl; lia|].
    split; [intros _; split; [done|unfold creates; simpl; lia]|].
    intros _ _. constructor. }
  apply Forall_cons in Hv as [Ho Hv]. apply Forall_cons in Hnd as [Hod Hnd].
  pose proof (wf_depth _ Hwf) as Hd.
  cbn [run_ops]. unfold mbind, M_bind.
  destruct o as [orc n|n| |context]; [| | |discriminate Hod];
    unfold run_op, mbind, M_bind; simpl in Ho.
  - (* create_lazy_context *)
    change (creates (Create orc n :: os)) with (S (creates os)).
    destruct (create_lazy_context_cases s orc n Hwf Ho)
      as [(s1 & Hc & Hwf1 & _ & Hst & Hwhy)|(Hc & Hwf1 & Hroom & Ho1 & Ho2)];
      rewrite Hc; simpl.
    + pose proof (depth_same_stack _ _ Hst) as Hd1.
      destruct (IH s1 Hwf1 Hv Hnd) as (vs & s' & Hr & Hwf' & Hlen & Hb & _ & _).
      rewrite Hr. exists (VContext CONTEXT_ERROR :: vs), s'.
      split; [done|]. split; [done|].
      split; [simpl; by rewrite Hlen|]. split; [lia|]. split.
      * intros Hall. apply Forall_cons in Hall as [Hne _]. done.
      * intros Hok Hcap. apply Forall_cons in Hok as [[Hok1 Hok2] _].
        destruct Hwhy as [Hfull|[Hno|Hno]]; [lia|congruence|congruence].
    + destruct (IH (push s n) Hwf1 Hv Hnd)
        as (vs & s' & Hr & Hwf' & Hlen & Hb & Hids & Hsucc).
      rewrite depth_push in Hb, Hids, Hsucc.
      rewrite Hr. exists (VContext (depth s) :: vs), s'.
      split; [done|]. split; [done|].
      split; [simpl; by rewrite Hlen|]. split; [lia|]. split.
      * intros Hall. apply Forall_cons in Hall as [_ Hall].
        destruct (Hids Hall) as [Hcs Hd']. split; [|lia].
        change (created (VContext (depth s) :: vs)) with (depth s :: created vs).
        rewrite Hcs. apply seq_identifiers.
      * intros Hok Hcap. apply Forall_cons in Hok as [_ Hok].
        change (created (VContext (depth s) :: vs)) with (depth s :: created vs).
        apply Forall_cons. split.
        { rewrite CONTEXT_ERROR_255. unfold MAX_LAZY_STACK in *. lia. }
        apply Hsucc; [done|lia].
  - (* lazy_alloc *)
    change (creates (Alloc n :: os)) with (creates os).
    destruct (lazy_alloc_wf s n Hwf) as (p & s1 & Hc & Hwf1 & Hst).
    rewrite Hc. simpl.
    pose proof (depth_same_stack _ _ Hst) as Hd1.
    destruct (IH s1 Hwf1 Hv Hnd) as (vs & s' & Hr & Hwf' & Hlen & Hb & Hids & Hsucc).
    rewrite Hd1 in Hb, Hids, Hsucc.
    rewrite Hr. exists (VPtr p :: vs), s'. split; [done|]. split; [done|].
    change (created (VPtr p :: vs)) with (created vs).
    split; [done|]. split; [done|]. split; [done|].
    intros Hok. apply Forall_cons in Hok as [_ Hok]. by apply Hsucc.
  - (* reset_lazy_context *)
    change (creates (Reset :: os)) with (creates os).
    destruct (reset_lazy_context_wf s Hwf) as (s1 & Hc & Hwf1 & Hst).
    rewrite Hc. simpl.
    pose proof (depth_same_stack _ _ Hst) as Hd1.
    destruct (IH s1 Hwf1 Hv Hnd) as (vs & s' & Hr & Hwf' & Hlen & Hb & Hids & Hsucc).
    rewrite Hd1 in Hb, Hids, Hsucc.
    rewrite Hr. exists (VUnit :: vs), s'. split; [done|]. split; [done|].
    change (created (VUnit :: vs)) with (created vs).
    split; [done|]. split; [done|]. split; [done|].
    intros Hok. apply Forall_cons in Hok as [_ Hok]. by apply Hsucc.
Qed.

(** C5: take any call sequence from the empty stack that contains no
    [destroy_lazy_context], with [N] calls of [create_lazy_context]. If
    all [N] succeed, the identifiers they return are 0, 1, ..., [N-1] in
    call order, the depth ends at [N], and [N <= MAX_LAZY_STACK]. For
    every [N <= MAX_LAZY_STACK] such runs exist: all calls succeed when
    no [malloc] fails. *)
Theorem create_lazy_context_identifiers os :
  Forall valid_op os → Forall (λ o, is_destroy o = false) os →
  ∃ vs s', run_ops os initial_state = Ok vs s'
    ∧ (Forall (λ c, c ≠ CONTEXT_ERROR) (created vs) →
       created vs = Z.of_nat <$> seq 0 (creates os)
       ∧ depth s' = Z.of_nat (creates os)
       ∧ Z.of_nat (creates os) ≤ MAX_LAZY_STACK)
    ∧ (Forall malloc_succeeds os →
       Z.of_nat (creates os) ≤ MAX_LAZY_STACK →
       Forall (λ c, c ≠ CONTEXT_ERROR) (created vs)).
Proof.
  intros Hv Hnd.
  destruct (run_ops_no_destroy os initial_state wf_initial Hv Hnd)
    as (vs & s' & Hrun & Hwf' & Hlen & Hb & Hids & Hsucc).
  change (depth initial_state) with 0 in *.
  exists vs, s'. split; [done|]. split; [|done].
  intros Hall. destruct (Hids Hall) as [-> Hd]. split; [|split].
  - apply list_fmap_ext. intros _ i _. lia.
  - lia.
  - pose proof (wf_depth _ Hwf'). lia.
Qed.

Lemma create_lazy_context_identifiers_witness :
  ∃ s', run_ops [Create (all_ok junk0) 100; Alloc 10; Create (all_ok junk0) 50;
                 Reset; Create (all_ok junk0) 0] initial_state
          = Ok [VContext 0; VPtr (Ptr 2%positive 0); VContext 1; VUnit; VContext 2] s'
        ∧ depth s' = 3.
Proof.
  set (os := [Create (all_ok junk0) 100; Alloc 10; Create (all_ok junk0) 50;
              Reset; Create (all_ok junk0) 0]).
  assert (Forall valid_op os) as Hv by (apply (bool_decide_unpack _); by vm_compute).
  assert (Forall (λ o, is_destroy o = false) os) as Hnd by (repeat constructor).
  destruct (create_lazy_context_identifiers os Hv Hnd) as (vs & s' & Hrun & Hids & Hsucc).
  assert (Forall (λ c, c ≠ CONTEXT_ERROR) (created vs)) as Hall.
  { apply Hsucc; [repeat constructor|by vm_compute]. }
  destruct (Hids Hall) as (_ & Hd & _).
  exists s'. split; [|exact Hd].
  rewrite Hrun. f_equal.
  assert (Ok vs s' = run_ops os initial_state) as E by (symmetry; exact Hrun).
  vm_compute in E. by injection E as -> _.
Defined.

(** C3: at depth [MAX_LAZY_STACK] = 16 a call of [create_lazy_context]
    returns the error value and leaves the whole store, hence the depth
    and every arena, as it was. In a call sequence from the empty stack
    without [destroy_lazy_context], the guard of line 54 does not hold
    after fewer than 16 calls of [create_lazy_context], so none of the
    first 16 can fail on it; once 16 have succeeded (as they do when no
    [malloc] fails, returning 0 .. 15) the guard holds and the next
    call, number 17, fails on it. *)
Theorem create_lazy_context_stack_full :
  MAX_LAZY_STACK = 16
  ∧ (∀ s o n, depth s = MAX_LAZY_STACK →
       stack_full s = true ∧ create_lazy_context o n s = Ok CONTEXT_ERROR s)
  ∧ (∀ os, Forall valid_op os → Forall (λ o, is_destroy o = false) os →
       ∃ vs s', run_ops os initial_state = Ok vs s'
         ∧ ((creates os < 16)%nat → stack_full s' = false)
         ∧ (creates os = 16%nat → Forall (λ c, c ≠ CONTEXT_ERROR) (created vs) →
            stack_full s' = true
            ∧ ∀ o n, create_lazy_context o n s' = Ok CONTEXT_ERROR s')
         ∧ (creates os = 16%nat → Forall malloc_succeeds os →
            created vs = Z.of_nat <$> seq 0 16
            ∧ Forall (λ c, c ≠ CONTEXT_ERROR) (created vs))).
Proof.
  split; [done|].
  assert (∀ s o n, depth s = MAX_LAZY_STACK →
            stack_full s = true ∧ create_lazy_context o n s = Ok CONTEXT_ERROR s)
    as Hfull.
  { intros s o n Hd. unfold depth in Hd. split.
    - unfold stack_full. apply bool_decide_eq_true. lia.
    - apply create_lazy_context_full; [lia|].
      unfold MAX_LAZY_STACK, INT_MAX in *. lia. }
  split; [done|]. intros os Hv Hnd.
  destruct (run_ops_no_destroy os initial_state wf_initial Hv Hnd)
    as (vs & s' & Hrun & Hwf' & Hlen & Hb & Hids & Hsucc).
  change (depth initial_state) with 0 in *.
  exists vs, s'. split; [done|]. split; [|split].
  - intros Hn. unfold stack_full. apply bool_decide_eq_false.
    unfold depth, MAX_LAZY_STACK in *. lia.
  - intros Hn Hall. destruct (Hids Hall) as [_ Hd].
    assert (depth s' = MAX_LAZY_STACK) as Hd16
      by (unfold MAX_LAZY_STACK; lia).
    split; [by apply (Hfull s' (all_ok junk0) 0)|].
    intros o n. by apply Hfull.
  - intros Hn Hok.
    assert (Forall (λ c, c ≠ CONTEXT_ERROR) (created vs)) as Hall
      by (apply Hsucc; [done|unfold MAX_LAZY_STACK; lia]).
    split; [|done]. destruct (Hids Hall) as [-> _]. rewrite Hn.
    apply list_fmap_ext. intros _ i _. lia.
Qed.

Lemma create_lazy_context_stack_full_witness :
  depth full_stack = MAX_LAZY_STACK
  ∧ create_lazy_context (all_ok junk0) 8 full_stack = Ok CONTEXT_ERROR full_stack.
Proof.
  assert (depth full_stack = MAX_LAZY_STACK) as Hd by (by vm_compute).
  split; [exact Hd|].
  exact (proj2 (proj1 (proj2 create_lazy_context_stack_full)
                  full_stack (all_ok junk0) 8 Hd)).
Defined.

(** * The invariant of the data model *)

(** C7: from a well-formed store every operation, called with
    arguments of its C types, returns, and the store it leaves is again
    well formed; in particular [0 <= depth <= MAX_LAZY_STACK]
    ([-1 <= top <= MAX_LAZY_STACK - 1]) and [0 <= offset <= size] for
    every arena on the stack hold before and after the call. *)
Theorem operations_preserve_invariant s o :
  wf s → valid_op o →
  (depth_inv s ∧ offset_inv s)
  ∧ ∃ v s', run_op o s = Ok v s' ∧ wf s' ∧ depth_inv s' ∧ offset_inv s'.
Proof.
  intros Hwf Hv. split; [split; [by apply wf_depth_inv|by apply wf_offset_inv]|].
  destruct (run_op_wf s o Hwf Hv) as (v & s' & Hrun & Hwf').
  exists v, s'. split; [done|]. split; [done|].
  split; [by apply wf_depth_inv|by apply wf_offset_inv].
Qed.

Lemma operations_preserve_invariant_witness :
  ∃ v s', run_op (Alloc SIZE_MAX) one_context_used = Ok v s'
          ∧ depth_inv s' ∧ offset_inv s'.
Proof.
  assert (wf one_context_used) as Hwf
    by (apply (bool_decide_unpack _); by vm_compute).
  assert (valid_op (Alloc SIZE_MAX)) as Hv
    by (apply (bool_decide_unpack _); by vm_compute).
  destruct (operations_preserve_invariant one_context_used (Alloc SIZE_MAX) Hwf Hv)
    as (_ & v & s' & Hrun & _ & Hd & Ho).
  exists v, s'. split; [exact Hrun|]. split; [exact Hd|exact Ho].
Defined.

(** The two invariants hold in every store the operations can reach. *)
Lemma reachable_invariant s : reachable s → depth_inv s ∧ offset_inv s.
Proof.
  intros Hs. apply reachable_wf in Hs.
  split; [by apply wf_depth_inv|by apply wf_offset_inv].
Qed.

(** * The error value of [create_lazy_context] *)

(** C9: the error value is 255. A call of [create_lazy_context] either
    returns it and pushes nothing, or pushes a context and returns its
    index, which lies in [0 .. MAX_LAZY_STACK - 1] = [0 .. 15] and so is
    not 255. In every reachable store [destroy_lazy_context(255)]
    changes nothing. *)
Theorem context_error_never_an_identifier :
  CONTEXT_ERROR = 255
  ∧ MAX_LAZY_STACK - 1 = 15
  ∧ (∀ s o n, wf s → is_size_t n →
       ∃ c s', create_lazy_context o n s = Ok c s'
         ∧ ((c = CONTEXT_ERROR ∧ lazy_stack s' = lazy_stack s)
            ∨ (0 ≤ c ≤ MAX_LAZY_STACK - 1 ∧ c ≠ CONTEXT_ERROR
               ∧ c = top (lazy_stack s') ∧ depth s' = depth s + 1)))
  ∧ (∀ s, reachable s → destroy_lazy_context CONTEXT_ERROR s = Ok tt s).
Proof.
  split; [done|]. split; [done|]. split.
  - intros s o n Hwf Hn. pose proof (wf_depth _ Hwf) as Hd.
    destruct (create_lazy_context_cases s o n Hwf Hn)
      as [(s' & Hrun & _ & _ & Hst & _)|(Hrun & _ & Hroom & _)].
    + exists CONTEXT_ERROR, s'. split; [done|]. by left.
    + exists (depth s), (push s n). split; [done|]. right.
      rewrite CONTEXT_ERROR_255. unfold MAX_LAZY_STACK in *.
      repeat split; (lia || done).
  - intros s Hs. apply reachable_wf in Hs. pose proof (wf_depth _ Hs) as Hd.
    apply destroy_lazy_context_above_top.
    rewrite CONTEXT_ERROR_255. unfold depth, MAX_LAZY_STACK in *. lia.
Qed.

Lemma context_error_never_an_identifier_witness :
  reachable two_contexts
  ∧ destroy_lazy_context 255 two_contexts = Ok tt two_contexts.
Proof.
  assert (reachable two_contexts) as Hs.
  { apply state_after_reachable. apply (bool_decide_unpack _). by vm_compute. }
  split; [exact Hs|].
  exact (proj2 (proj2 (proj2 context_error_never_an_identifier)) two_contexts Hs).
Defined.

(** * The end-to-end scenario of the specification *)

(** [create(100)] gives 0; [alloc(10)] succeeds; [create(50)] gives 1;
    [alloc(60)] fails; [destroy(0)] releases both contexts and every
    block; the next [alloc] fails for want of a context. *)
Example end_to_end_scenario :
  ∃ s,
    run_ops [Create (all_ok junk0) 100; Alloc 10; Create (all_ok junk0) 50;
             Alloc 60; Destroy 0; Alloc 1] initial_state
      = Ok [VContext 0; VPtr (Ptr 2%positive 0); VContext 1; VPtr NULL;
            VUnit; VPtr NULL] s
    ∧ depth s = 0 ∧ heap s = ∅.
Proof.
  eexists. split; [vm_compute; reflexivity|]. split; [done|].
  apply map_eq. intros i. rewrite lookup_empty. by vm_compute.
Qed.

(** * Further properties of the four operations *)

(** ** The effect of each call *)

Lemma run_op_effect s o v s' :
  wf s → valid_op o → run_op o s = Ok v s' → effect s s'.
Proof.
  intros Hwf Hv. pose proof (wf_depth _ Hwf) as Hd.
  destruct o as [orc n|n| |context]; simpl in Hv; unfold run_op, mbind, M_bind.
  - destruct (create_lazy_context_cases s orc n Hwf Hv)
      as [(s1 & Hc & Hwf1 & Hh & Hst & _)|(Hc & _ & Hroom & _)];
      rewrite Hc; simpl; intros [= <- <-].
    + apply effect_none; [done|done|].
      revert Hc. clear -Hwf Hv Hd. intros Hc.
      destruct (decide (depth s = MAX_LAZY_STACK)) as [Hfull|Hroom].
      { rewrite create_lazy_context_full in Hc;
          [ injection Hc as <-; lia | unfold depth in *; lia
          | unfold depth, MAX_LAZY_STACK, INT_MAX in *; lia ]. }
      assert (top (lazy_stack s) + 1 < MAX_LAZY_STACK) as Ht
        by (unfold depth in *; lia).
      destruct (arena_ok orc) eqn:Ho1.
      2: { rewrite create_lazy_context_no_header in Hc by done.
           injection Hc as <-. lia. }
      destruct (memory_ok orc) eqn:Ho2.
      2: { rewrite create_lazy_context_no_buffer in Hc
             by (done || by apply wf_next_fresh).
           injection Hc as <-. simpl. lia. }
      rewrite create_lazy_context_exec in Hc;
        [ | done | unfold depth in *; lia | apply (wf_length _ Hwf) | done | done ].
      injection Hc as Hc _. rewrite CONTEXT_ERROR_255 in Hc.
      unfold depth, MAX_LAZY_STACK in *. lia.
    + by apply (effect_push s _ n).
  - destruct (decide (top (lazy_stack s) < 0)) as [Hlt|Hge].
    { rewrite lazy_alloc_empty by done. simpl. intros [= <- <-].
      apply effect_none; (done || lia). }
    destruct (wf_top_arena s Hwf ltac:(lia)) as (b & a & m & Ha & Ho & Hs).
    rewrite (lazy_alloc_exec s n b a m) by (done || unfold depth in *; lia).
    case_bool_decide; simpl; intros [= <- <-].
    + apply effect_none; (done || lia).
    + apply (effect_offset s _ b a m (size_t (offset a + n))); [lia|done| |done].
      pose proof (size_t_range (offset a + n)). lia.
  - destruct (decide (top (lazy_stack s) < 0)) as [Hlt|Hge].
    { rewrite reset_lazy_context_empty by done. simpl. intros [= <- <-].
      apply effect_none; (done || lia). }
    destruct (wf_top_arena s Hwf ltac:(lia)) as (b & a & m & Ha & Ho & Hs).
    rewrite (reset_lazy_context_exec s b a m) by (done || unfold depth in *; lia).
    simpl. intros [= <- <-].
    apply (effect_offset s _ b a m 0); [lia|done|lia|done].
  - unfold is_uint8_t in Hv.
    destruct (destroy_lazy_context_spec context s Hwf ltac:(lia))
      as (s1 & Hc & Hp). rewrite Hc. simpl. intros [= <- <-].
    apply (effect_pop s _ context); [lia|done].
Qed.

(** ** The blocks the open contexts own, across a call *)

Lemma owned_same s s' :
  heap s' = heap s → lazy_stack s' = lazy_stack s → owned s' = owned s.
Proof. destruct s, s'. simpl. by intros -> ->. Qed.

Lemma owned_push s n :
  wf s → depth s < MAX_LAZY_STACK →
  owned (push s n) = owned s ++ [next s; Pos.succ (next s)].
Proof.
  intros Hwf Hd. pose proof (wf_depth _ Hwf) as Hd0.
  assert (live (push s n) = live s ++ [Z.to_nat (depth s)]) as Hlive.
  { unfold live. replace (Z.to_nat (depth (push s n))) with (S (Z.to_nat (depth s)))
      by (rewrite depth_push; lia).
    by rewrite seq_S. }
  unfold owned. rewrite Hlive, owned_by_app. f_equal.
  - apply owned_by_ext. intros i Hi. apply elem_of_live in Hi.
    apply owned_at_of_arena_at. by apply arena_at_push_below.
  - unfold owned_by. simpl. unfold owned_at.
    by rewrite (arena_at_push_top s n Hwf Hd).
Qed.

Lemma arena_at_with_header s b a m a' i :
  wf s → 0 ≤ top (lazy_stack s) →
  arena_at s (Z.to_nat (top (lazy_stack s))) = Some (b, a, m) →
  memory a' = memory a → size a' = size a →
  Z.of_nat i < depth s →
  arena_at (with_header s b a') i =
    if decide (i = Z.to_nat (top (lazy_stack s))) then Some (b, a', m)
    else arena_at s i.
Proof.
  intros Hwf Ht Ha Hm Hs Hi.
  pose proof (arena_at_blocks_ne _ _ _ _ _ Ha) as Hbm.
  case_decide as Hit.
  - subst i. apply arena_at_Some in Ha as (H1 & H2 & H3 & H4).
    apply arena_at_Some. unfold with_header. simpl.
    rewrite lookup_insert_eq, lookup_insert_ne by done.
    by rewrite Hm, Hs.
  - destruct (wf_arena_at s i Hwf Hi) as (bi & ai & mi & Hai & _).
    assert (Z.of_nat (Z.to_nat (top (lazy_stack s))) < depth s) as Htop
      by (unfold depth; lia).
    destruct (wf_disjoint s i _ _ _ _ _ _ _ Hwf Hi Htop Hit Hai Ha)
      as (N1 & N2 & N3 & N4).
    rewrite Hai. apply (arena_at_frame s _ i bi ai mi Hai); unfold with_header; simpl;
      [done | by apply lookup_insert_ne | by apply lookup_insert_ne].
Qed.

Lemma owned_with_header s b a m a' :
  wf s → 0 ≤ top (lazy_stack s) →
  arena_at s (Z.to_nat (top (lazy_stack s))) = Some (b, a, m) →
  memory a' = memory a → size a' = size a →
  owned (with_header s b a') = owned s.
Proof.
  intros Hwf Ht Ha Hm Hs. unfold owned.
  change (live (with_header s b a')) with (live s).
  apply owned_by_ext. intros i Hi. apply elem_of_live in Hi.
  unfold owned_at. rewrite (arena_at_with_header s b a m a' i) by done.
  case_decide as Hit; [|done]. subst i. by rewrite Ha.
Qed.

Lemma owned_popped s s' k :
  wf s → 0 ≤ k → popped_to k s s' → owned s = owned s' ++ released s k.
Proof.
  intros Hwf Hk (Hwf' & Hd' & _ & _ & _ & Hat).
  pose proof (wf_depth _ Hwf) as Hd. unfold owned, released.
  rewrite (owned_by_ext s s' (live s')).
  2: { intros i Hi. apply elem_of_live in Hi.
       by apply owned_at_of_arena_at, Hat. }
  rewrite <- owned_by_app. f_equal. unfold live.
  destruct (decide (k ≤ depth s)) as [Hle|Hgt].
  - replace (Z.to_nat (depth s')) with (Z.to_nat k) by lia.
    rewrite <- seq_app. f_equal. lia.
  - replace (Z.to_nat (depth s) - Z.to_nat k)%nat with 0%nat by lia.
    simpl. rewrite app_nil_r. f_equal. lia.
Qed.

Lemma top_arena_owned s b a m :
  0 ≤ top (lazy_stack s) →
  arena_at s (Z.to_nat (top (lazy_stack s))) = Some (b, a, m) →
  b ∈ owned s ∧ m ∈ owned s.
Proof.
  intros Ht Ha. unfold owned.
  split; apply elem_of_owned_by; exists (Z.to_nat (top (lazy_stack s)));
    (split; [apply elem_of_live; unfold depth; lia|]);
    apply elem_of_owned_at; eauto 10.
Qed.

(** A call keeps "every live block belongs to an open context". *)
Lemma effect_accounted s s' :
  wf s → effect s s' →
  (∀ x, is_Some (heap s !! x) → x ∈ owned s) →
  ∀ x, is_Some (heap s' !! x) → x ∈ owned s'.
Proof.
  intros Hwf [Hh Hst _|n Hroom Hn ->|b a m k Ht Ha Hk ->|context Hc Hp] Hacc x Hx.
  - rewrite (owned_same s s') by done. apply Hacc. by rewrite <- Hh.
  - rewrite owned_push by done. apply elem_of_app.
    unfold push in Hx. simpl in Hx.
    destruct (decide (x = next s)) as [->|N1];
      [right; rewrite !elem_of_cons; auto|].
    destruct (decide (x = Pos.succ (next s))) as [->|N2];
      [right; rewrite !elem_of_cons; auto|].
    rewrite !lookup_insert_ne in Hx by done. left. by apply Hacc.
  - rewrite (owned_with_header s b a m) by done.
    unfold with_header in Hx. simpl in Hx.
    destruct (decide (x = b)) as [->|N1].
    + by apply (top_arena_owned s b a m).
    + rewrite lookup_insert_ne in Hx by done. by apply Hacc.
  - pose proof (owned_popped s s' context Hwf Hc Hp) as Hown.
    destruct Hp as (_ & _ & _ & _ & Hheap & _).
    rewrite Hheap in Hx. case_decide as Hrel; [by destruct Hx|].
    apply Hacc in Hx. rewrite Hown in Hx.
    apply elem_of_app in Hx as [Hx|Hx]; done.
Qed.

(** A call leaves alone every live block that no open context owns. *)
Lemma effect_frame s s' x c :
  wf s → effect s s' →
  heap s !! x = Some c → x ∉ owned s → heap s' !! x = Some c.
Proof.
  intros Hwf [Hh Hst _|n Hroom Hn ->|b a m k Ht Ha Hk ->|context Hc Hp] Hx Hnot.
  - by rewrite Hh.
  - pose proof (wf_live_block s x c Hwf Hx). unfold push. simpl.
    by rewrite !lookup_insert_ne by lia.
  - unfold with_header. simpl. rewrite lookup_insert_ne; [done|].
    intros <-. apply Hnot. by apply (top_arena_owned s b a m).
  - pose proof (owned_popped s s' context Hwf Hc Hp) as Hown.
    destruct Hp as (_ & _ & _ & _ & Hheap & _).
    rewrite Hheap, decide_False; [done|].
    intros Hrel. apply Hnot. rewrite Hown. apply elem_of_app. by right.
Qed.

Lemma reachable_accounted s :
  reachable s → ∀ x, is_Some (heap s !! x) → x ∈ owned s.
Proof.
  induction 1 as [|s o v s' Hs IH Hv Hrun].
  - intros x [c Hc]. change (heap initial_state) with (∅ : gmap block cell) in Hc.
    by rewrite lookup_empty in Hc.
  - apply (effect_accounted s s'); [by apply reachable_wf| |done].
    by apply (run_op_effect s o v s'); [apply reachable_wf| |].
Qed.

(** ** What [lazy_alloc] does, wrap-around included *)

(** X1: with a context open, [lazy_alloc(n)] is refused, the store
    untouched, exactly when [(offset + n) mod 2^64] exceeds [size];
    otherwise it returns [memory + offset] and sets the top header's
    offset to [(offset + n) mod 2^64], keeping its [memory] and [size]
    and every context below the top. *)
Theorem lazy_alloc_characterised s n :
  wf s → 0 < depth s →
  ∃ b a m,
    arena_at s (Z.to_nat (top (lazy_stack s))) = Some (b, a, m)
    ∧ (size a < size_t (offset a + n) → lazy_alloc n s = Ok NULL s)
    ∧ (size_t (offset a + n) ≤ size a →
       let s' := with_header s b (set_offset a (size_t (offset a + n))) in
       lazy_alloc n s = Ok (Ptr m (offset a)) s'
       ∧ arena_at s' (Z.to_nat (top (lazy_stack s)))
           = Some (b, set_offset a (size_t (offset a + n)), m)
       ∧ ∀ i, Z.of_nat i < depth s - 1 → arena_at s' i = arena_at s i).
Proof.
  intros Hwf Hd. pose proof (wf_depth _ Hwf) as Hd0.
  assert (0 ≤ top (lazy_stack s)) as Ht by (unfold depth in Hd; lia).
  destruct (wf_top_arena s Hwf Ht) as (b & a & m & Ha & Hg).
  exists b, a, m. split; [done|].
  pose proof (lazy_alloc_exec s n b a m ltac:(unfold depth in *; lia) Ha ltac:(lia))
    as Hexec.
  split.
  - intros Hbig. by rewrite Hexec, bool_decide_true.
  - intros Hfit. cbv zeta. rewrite Hexec, bool_decide_false by lia.
    split; [done|]. split.
    + rewrite (arena_at_with_header s b a m) by (done || unfold depth; lia).
      by rewrite decide_True.
    + intros i Hi.
      rewrite (arena_at_with_header s b a m) by (done || lia).
      rewrite decide_False; [done|]. unfold depth in Hi. lia.
Qed.

Lemma lazy_alloc_characterised_witness :
  lazy_alloc 200 one_context_used = Ok NULL one_context_used
  ∧ ∃ s', lazy_alloc 5 one_context_used = Ok (Ptr 2%positive 1) s'.
Proof.
  assert (wf one_context_used) as Hwf
    by (apply (bool_decide_unpack _); by vm_compute).
  assert (0 < depth one_context_used) as Hd by (by vm_compute).
  destruct (lazy_alloc_characterised one_context_used 200 Hwf Hd)
    as (b & a & m & Ha & Hno & _).
  destruct (lazy_alloc_characterised one_context_used 5 Hwf Hd)
    as (b' & a' & m' & Ha' & _ & Hyes).
  assert (Some (b, a, m) = Some (1%positive,
            {| memory := Ptr 2%positive 0; size := 100; offset := 1 |},
            2%positive)) as E by (rewrite <- Ha; by vm_compute).
  assert (Some (b', a', m') = Some (1%positive,
            {| memory := Ptr 2%positive 0; size := 100; offset := 1 |},
            2%positive)) as E' by (rewrite <- Ha'; by vm_compute).
  injection E as -> -> ->. injection E' as -> -> ->. split.
  - apply Hno. by vm_compute.
  - eexists. apply Hyes. by vm_compute.
Defined.

(** X2: the first [lazy_alloc(n)] after a successful
    [create_lazy_context(sz)] is served, at the start of the new
    buffer, exactly when [n <= sz]: at offset 0 the sum cannot wrap. A
    context of size 0 therefore serves nothing but empty requests. *)
Theorem first_allocation_in_new_context s o sz c s1 n :
  wf s → is_size_t sz → is_size_t n →
  create_lazy_context o sz s = Ok c s1 → c ≠ CONTEXT_ERROR →
  (n ≤ sz → ∃ s2, lazy_alloc n s1 = Ok (Ptr (Pos.succ (next s)) 0) s2)
  ∧ (sz < n → lazy_alloc n s1 = Ok NULL s1).
Proof.
  intros Hwf Hsz Hn Hc Hne. unfold is_size_t in *.
  destruct (create_lazy_context_cases s o sz Hwf Hsz)
    as [(s' & Hc' & _)|(Hc' & Hwf1 & Hroom & _)];
    rewrite Hc' in Hc; injection Hc as <- <-; [done|].
  pose proof (wf_depth _ Hwf) as Hd.
  pose proof (arena_at_push_top s sz Hwf Hroom) as Ha.
  assert (0 ≤ top (lazy_stack (push s sz))) as Ht
    by (unfold push, depth in *; simpl; lia).
  replace (Z.to_nat (depth s)) with (Z.to_nat (top (lazy_stack (push s sz)))) in Ha
    by (unfold push, depth; simpl; lia).
  split.
  - intros Hfit. eexists.
    apply (lazy_alloc_fits (push s sz) _ _ _ n Hwf1 Ht Ha). simpl. lia.
  - intros Hbig.
    apply (lazy_alloc_refused_without_wrap (push s sz) _ _ _ n Hwf1 Ht Ha);
      simpl; lia.
Qed.

Lemma first_allocation_in_new_context_witness :
  ∃ s1, create_lazy_context (all_ok junk0) 0 initial_state = Ok 0 s1
        ∧ lazy_alloc 1 s1 = Ok NULL s1
        ∧ ∃ s2, lazy_alloc 0 s1 = Ok (Ptr 2%positive 0) s2.
Proof.
  eexists. split; [vm_compute; reflexivity|].
  assert (is_size_t 0) as H0 by (by vm_compute).
  assert (is_size_t 1) as H1 by (by vm_compute).
  split.
  - refine (proj2 (first_allocation_in_new_context initial_state (all_ok junk0)
                     0 0 _ 1 wf_initial H0 H1 _ _) _); by vm_compute.
  - refine (proj1 (first_allocation_in_new_context initial_state (all_ok junk0)
                     0 0 _ 0 wf_initial H0 H0 _ _) _); by vm_compute.
Defined.

(** X14: [lazy_alloc] and [reset_lazy_context] never change the stack
    itself nor any context below the top: a nested scope can neither
    consume nor rewind the space of the scopes around it. *)
Theorem alloc_and_reset_touch_the_top_only s o v s' :
  wf s → valid_op o → is_create o = false → is_destroy o = false →
  run_op o s = Ok v s' →
  lazy_stack s' = lazy_stack s
  ∧ ∀ i, Z.of_nat i < depth s - 1 → arena_at s' i = arena_at s i.
Proof.
  intros Hwf Hv Hnc Hnd. pose proof (wf_depth _ Hwf) as Hd.
  assert (∀ b a m k,
            0 ≤ top (lazy_stack s) →
            arena_at s (Z.to_nat (top (lazy_stack s))) = Some (b, a, m) →
            ∀ i, Z.of_nat i < depth s - 1 →
                 arena_at (with_header s b (set_offset a k)) i = arena_at s i)
    as Hbelow.
  { intros b a m k Ht Ha i Hi.
    rewrite (arena_at_with_header s b a m) by (done || lia).
    rewrite decide_False; [done|]. unfold depth in Hi. lia. }
  destruct o as [orc n|n| |context]; try discriminate;
    unfold run_op, mbind, M_bind.
  - destruct (decide (top (lazy_stack s) < 0)) as [Hlt|Hge].
    { rewrite lazy_alloc_empty by done. simpl. by intros [= <- <-]. }
    destruct (wf_top_arena s Hwf ltac:(lia)) as (b & a & m & Ha & Ho & Hs).
    rewrite (lazy_alloc_exec s n b a m) by (done || unfold depth in *; lia).
    case_bool_decide; simpl; intros [= <- <-]; [done|].
    split; [done|]. apply (Hbelow b a m); (done || lia).
  - destruct (decide (top (lazy_stack s) < 0)) as [Hlt|Hge].
    { rewrite reset_lazy_context_empty by done. simpl. by intros [= <- <-]. }
    destruct (wf_top_arena s Hwf ltac:(lia)) as (b & a & m & Ha & Ho & Hs).
    rewrite (reset_lazy_context_exec s b a m) by (done || unfold depth in *; lia).
    simpl. intros [= <- <-].
    split; [done|]. apply (Hbelow b a m); (done || lia).
Qed.

Lemma alloc_and_reset_touch_the_top_only_witness :
  ∃ v s', run_op Reset two_contexts = Ok v s'
          ∧ arena_at s' 0 = arena_at two_contexts 0
          ∧ arena_at two_contexts 0
              = Some (1%positive,
                      {| memory := Ptr 2%positive 0; size := 100; offset := 10 |},
                      2%positive).
Proof.
  assert (wf two_contexts) as Hwf by (apply (bool_decide_unpack _); by vm_compute).
  destruct (run_op_wf two_contexts Reset Hwf I) as (v & s' & Hrun & _).
  exists v, s'. split; [exact Hrun|]. split; [|by vm_compute].
  refine (proj2 (alloc_and_reset_touch_the_top_only two_contexts Reset v s'
                   Hwf I eq_refl eq_refl Hrun) 0%nat _).
  by vm_compute.
Defined.

(** ** Creating and destroying *)

(** X3: when [create_lazy_context] returns the error value the heap and
    the stack are exactly as before the call; in particular the header
    obtained before a failing buffer [malloc] has been released again.
    The call fails only at full depth or on a failing [malloc]. *)
Theorem create_lazy_context_failure_leaves_no_trace s o n s' :
  wf s → is_size_t n →
  create_lazy_context o n s = Ok CONTEXT_ERROR s' →
  heap s' = heap s
  ∧ lazy_stack s' = lazy_stack s
  ∧ (depth s = MAX_LAZY_STACK ∨ arena_ok o = false ∨ memory_ok o = false).
Proof.
  intros Hwf Hn Hc. pose proof (wf_depth _ Hwf) as Hd.
  destruct (create_lazy_context_cases s o n Hwf Hn)
    as [(s1 & Hc' & _ & Hh & Hst & Hwhy)|(Hc' & _ & Hroom & _)];
    rewrite Hc' in Hc.
  - by injection Hc as <-.
  - injection Hc as Hc _. rewrite CONTEXT_ERROR_255 in Hc.
    unfold MAX_LAZY_STACK in *. lia.
Qed.

Lemma create_lazy_context_failure_leaves_no_trace_witness :
  ∃ s', create_lazy_context (no_buffer junk0) 64 two_contexts = Ok CONTEXT_ERROR s'
        ∧ heap s' = heap two_contexts
        ∧ lazy_stack s' = lazy_stack two_contexts.
Proof.
  assert (wf two_contexts) as Hwf by (apply (bool_decide_unpack _); by vm_compute).
  assert (is_size_t 64) as Hn by (by vm_compute).
  assert (∃ s', create_lazy_context (no_buffer junk0) 64 two_contexts
                = Ok CONTEXT_ERROR s') as [s' E]
    by (eexists; vm_compute; reflexivity).
  exists s'. split; [exact E|].
  destruct (create_lazy_context_failure_leaves_no_trace two_contexts
              (no_buffer junk0) 64 s' Hwf Hn E) as (Hh & Hst & _).
  split; [exact Hh|exact Hst].
Defined.

(** X4: when [create_lazy_context(n)] succeeds, both [malloc] calls
    succeeded, the identifier is the former depth, and the new top
    context has offset 0, size [n] and a buffer of [n] bytes; its header
    and buffer are blocks that were not live before, every other block
    is as before, and so is every context that was open. *)
Theorem create_lazy_context_success s o n c s' :
  wf s → is_size_t n →
  create_lazy_context o n s = Ok c s' → c ≠ CONTEXT_ERROR →
  c = depth s ∧ depth s' = depth s + 1
  ∧ arena_ok o = true ∧ memory_ok o = true
  ∧ ∃ b m,
      arena_at s' (Z.to_nat c)
        = Some (b, {| memory := Ptr m 0; size := n; offset := 0 |}, m)
      ∧ heap s !! b = None ∧ heap s !! m = None
      ∧ (∀ x, x ≠ b → x ≠ m → heap s' !! x = heap s !! x)
      ∧ (∀ i, Z.of_nat i < depth s → arena_at s' i = arena_at s i).
Proof.
  intros Hwf Hn Hc Hne.
  destruct (create_lazy_context_cases s o n Hwf Hn)
    as [(s1 & Hc' & _)|(Hc' & Hwf1 & Hroom & Ho1 & Ho2)];
    rewrite Hc' in Hc; injection Hc as <- <-; [done|].
  split; [done|]. split; [done|]. split; [done|]. split; [done|].
  exists (next s), (Pos.succ (next s)).
  split; [by apply arena_at_push_top|].
  split; [by apply wf_next_fresh|]. split.
  { destruct (heap s !! Pos.succ (next s)) as [c|] eqn:E; [|done].
    apply (wf_live_block _ _ _ Hwf) in E. lia. }
  split.
  - intros x N1 N2. unfold push. simpl. by rewrite !lookup_insert_ne by done.
  - intros i Hi. by apply arena_at_push_below.
Qed.

Lemma create_lazy_context_success_witness :
  ∃ s', create_lazy_context (all_ok junk0) 50 one_context_used = Ok 1 s'
        ∧ depth s' = 2
        ∧ arena_at s' 0 = arena_at one_context_used 0.
Proof.
  assert (wf one_context_used) as Hwf
    by (apply (bool_decide_unpack _); by vm_compute).
  assert (is_size_t 50) as Hn by (by vm_compute).
  assert (∃ s', create_lazy_context (all_ok junk0) 50 one_context_used = Ok 1 s')
    as [s' E] by (eexists; vm_compute; reflexivity).
  assert (1 ≠ CONTEXT_ERROR) as Hne by (by vm_compute).
  exists s'. split; [exact E|].
  destruct (create_lazy_context_success one_context_used (all_ok junk0) 50 1 s'
              Hwf Hn E Hne) as (_ & Hd & _ & _ & b & m & _ & _ & _ & _ & Hlow).
  split; [exact Hd|]. apply (Hlow 0%nat). by vm_compute.
Defined.

(** X5: a successful [create_lazy_context] followed by
    [destroy_lazy_context] of the identifier it returned restores the
    heap, the top index and every open context. *)
Theorem create_destroy_round_trip s o n c s1 :
  wf s → is_size_t n →
  create_lazy_context o n s = Ok c s1 → c ≠ CONTEXT_ERROR →
  ∃ s2, destroy_lazy_context c s1 = Ok tt s2
        ∧ heap s2 = heap s
        ∧ top (lazy_stack s2) = top (lazy_stack s)
        ∧ ∀ i, Z.of_nat i < depth s → arena_at s2 i = arena_at s i.
Proof.
  intros Hwf Hn Hc Hne. pose proof (wf_depth _ Hwf) as Hd.
  destruct (create_lazy_context_cases s o n Hwf Hn)
    as [(s' & Hc' & _)|(Hc' & Hwf1 & Hroom & _)];
    rewrite Hc' in Hc; injection Hc as <- <-; [done|].
  destruct (destroy_lazy_context_spec (depth s) (push s n) Hwf1 ltac:(lia))
    as (s2 & Hrun & Hwf2 & Hd2 & _ & _ & Hheap & Hat).
  rewrite depth_push in Hd2.
  assert (released (push s n) (depth s) = [next s; Pos.succ (next s)]) as Hrel.
  { unfold released. rewrite depth_push.
    replace (Z.to_nat (depth s + 1) - Z.to_nat (depth s))%nat with 1%nat by lia.
    unfold owned_by. simpl. unfold owned_at.
    by rewrite (arena_at_push_top s n Hwf Hroom). }
  exists s2. split; [done|]. split; [|split].
  - apply map_eq. intros x. rewrite Hheap, Hrel. case_decide as Hx.
    + rewrite !elem_of_cons, elem_of_nil in Hx. symmetry.
      destruct (heap s !! x) as [c|] eqn:E; [|done].
      apply (wf_live_block _ _ _ Hwf) in E. lia.
    + rewrite !elem_of_cons in Hx. unfold push. simpl.
      rewrite !lookup_insert_ne; [done| |]; intros <-; tauto.
  - unfold depth in Hd2. lia.
  - intros i Hi. rewrite Hat by lia. by apply arena_at_push_below.
Qed.

Lemma create_destroy_round_trip_witness :
  ∃ s1 s2, create_lazy_context (all_ok junk0) 50 one_context_used = Ok 1 s1
           ∧ destroy_lazy_context 1 s1 = Ok tt s2
           ∧ heap s2 = heap one_context_used.
Proof.
  assert (wf one_context_used) as Hwf
    by (apply (bool_decide_unpack _); by vm_compute).
  assert (is_size_t 50) as Hn by (by vm_compute).
  assert (∃ s1, create_lazy_context (all_ok junk0) 50 one_context_used = Ok 1 s1)
    as [s1 E] by (eexists; vm_compute; reflexivity).
  assert (1 ≠ CONTEXT_ERROR) as Hne by (by vm_compute).
  destruct (create_destroy_round_trip one_context_used (all_ok junk0) 50 1 s1
              Hwf Hn E Hne) as (s2 & Hrun & Hh & _).
  exists s1, s2. split; [exact E|]. split; [exact Hrun|exact Hh].
Defined.

(** X6: identifiers are stack indices, so they come back: after
    [destroy_lazy_context(k)] on a stack of depth above [k], the next
    successful [create_lazy_context] returns [k] again. *)
Theorem identifier_reused_after_destroy s k s1 o n :
  wf s → is_uint8_t k → k < depth s → is_size_t n →
  arena_ok o = true → memory_ok o = true →
  destroy_lazy_context k s = Ok tt s1 →
  create_lazy_context o n s1 = Ok k (push s1 n).
Proof.
  intros Hwf Hk Hlt Hn Ho1 Ho2 Hrun. unfold is_uint8_t in Hk.
  pose proof (wf_depth _ Hwf) as Hd.
  destruct (destroy_lazy_context_spec k s Hwf ltac:(lia))
    as (s' & Hrun' & Hwf' & Hd' & _).
  rewrite Hrun in Hrun'. injection Hrun' as <-.
  destruct (create_lazy_context_cases s1 o n Hwf' Hn)
    as [(s2 & _ & _ & _ & _ & Hwhy)|(Hc & _)].
  - destruct Hwhy as [Hfull|[Hno|Hno]]; [lia|congruence|congruence].
  - rewrite Hc. f_equal. lia.
Qed.

Lemma identifier_reused_after_destroy_witness :
  ∃ s1 s2, destroy_lazy_context 1 two_contexts = Ok tt s1
           ∧ create_lazy_context (all_ok junk0) 7 s1 = Ok 1 s2.
Proof.
  assert (wf two_contexts) as Hwf by (apply (bool_decide_unpack _); by vm_compute).
  assert (is_uint8_t 1) as Hk by (by vm_compute).
  assert (1 < depth two_contexts) as Hlt by (by vm_compute).
  assert (is_size_t 7) as Hn by (by vm_compute).
  assert (∃ s1, destroy_lazy_context 1 two_contexts = Ok tt s1) as [s1 E]
    by (eexists; vm_compute; reflexivity).
  exists s1, (push s1 7). split; [exact E|].
  exact (identifier_reused_after_destroy two_contexts 1 s1 (all_ok junk0) 7
           Hwf Hk Hlt Hn eq_refl eq_refl E).
Defined.

(** ** No leaks, no interference *)

(** X7: in every store the operations can reach from the initial one,
    the live heap blocks are exactly the headers and buffers of the open
    contexts: nothing is leaked and nothing owned has been released. *)
Theorem live_blocks_belong_to_open_contexts s x :
  reachable s → (is_Some (heap s !! x) ↔ x ∈ owned s).
Proof.
  intros Hs. split.
  - by apply reachable_accounted.
  - intros Hx. apply elem_of_owned_by in Hx as (i & _ & Hx).
    by apply owned_at_in_heap in Hx.
Qed.

Lemma live_blocks_belong_to_open_contexts_witness :
  owned two_contexts = [1%positive; 2%positive; 3%positive; 4%positive]
  ∧ (is_Some (heap two_contexts !! 3%positive) ↔ 3%positive ∈ owned two_contexts).
Proof.
  split; [by vm_compute|].
  apply live_blocks_belong_to_open_contexts.
  apply state_after_reachable. apply (bool_decide_unpack _). by vm_compute.
Defined.

(** X8: from every reachable store, [destroy_lazy_context(0)] closes
    all contexts and leaves the heap empty. *)
Theorem destroy_bottom_context_frees_everything s :
  reachable s →
  ∃ s', destroy_lazy_context 0 s = Ok tt s' ∧ depth s' = 0 ∧ heap s' = ∅.
Proof.
  intros Hs. pose proof (reachable_wf _ Hs) as Hwf.
  pose proof (wf_depth _ Hwf) as Hd.
  destruct (destroy_lazy_context_spec 0 s Hwf ltac:(lia))
    as (s' & Hrun & _ & Hd' & _ & _ & Hheap & _).
  exists s'. split; [done|]. split; [lia|].
  apply map_eq. intros x. rewrite Hheap, lookup_empty.
  case_decide as Hx; [done|].
  destruct (heap s !! x) as [c|] eqn:E; [|done].
  exfalso. apply Hx. unfold released.
  replace (Z.to_nat (depth s) - Z.to_nat 0)%nat with (Z.to_nat (depth s)) by lia.
  apply (reachable_accounted s Hs). by rewrite E.
Qed.

Lemma destroy_bottom_context_frees_everything_witness :
  ∃ s', destroy_lazy_context 0 full_stack = Ok tt s' ∧ depth s' = 0 ∧ heap s' = ∅.
Proof.
  apply destroy_bottom_context_frees_everything.
  apply state_after_reachable. apply (bool_decide_unpack _). by vm_compute.
Defined.

(** X9: no operation modifies or releases a live block that does not
    belong to an open context: the allocator never interferes with the
    rest of the heap. *)
Theorem foreign_blocks_are_never_touched s o v s' x c :
  wf s → valid_op o → run_op o s = Ok v s' →
  heap s !! x = Some c → x ∉ owned s →
  heap s' !! x = Some c.
Proof.
  intros Hwf Hv Hrun Hx Hnot.
  apply (effect_frame s s' x c Hwf); [|done|done].
  by apply (run_op_effect s o v s').
Qed.

Lemma foreign_blocks_are_never_touched_witness :
  ∃ v s', run_op (Create (all_ok junk0) 32) foreign_store = Ok v s'
          ∧ heap s' !! 1%positive = Some (CBuf 8).
Proof.
  assert (wf foreign_store) as Hwf by (apply (bool_decide_unpack _); by vm_compute).
  assert (valid_op (Create (all_ok junk0) 32)) as Hv
    by (apply (bool_decide_unpack _); by vm_compute).
  destruct (run_op_wf foreign_store _ Hwf Hv) as (v & s' & Hrun & _).
  exists v, s'. split; [exact Hrun|].
  apply (foreign_blocks_are_never_touched foreign_store _ v s' 1%positive (CBuf 8)
           Hwf Hv Hrun).
  - by vm_compute.
  - apply (bool_decide_unpack _). by vm_compute.
Defined.

(** X10: [destroy_lazy_context(k)] leaves the store exactly as it was
    if and only if [k] is at or above the depth; identifiers beyond the
    top, stale or never issued, are ignored. *)
Theorem destroy_lazy_context_noop_iff s k :
  wf s → is_uint8_t k →
  (destroy_lazy_context k s = Ok tt s ↔ depth s ≤ k).
Proof.
  intros Hwf Hk. unfold is_uint8_t in Hk. split.
  - intros Hrun. destruct (decide (depth s ≤ k)) as [|Hlt]; [done|].
    destruct (destroy_lazy_context_spec k s Hwf ltac:(lia))
      as (s' & Hrun' & _ & Hd' & _).
    rewrite Hrun in Hrun'. injection Hrun' as <-. lia.
  - intros Hle. apply destroy_lazy_context_above_top. unfold depth in Hle. lia.
Qed.

Lemma destroy_lazy_context_noop_iff_witness :
  destroy_lazy_context 2 two_contexts = Ok tt two_contexts
  ∧ destroy_lazy_context 1 two_contexts ≠ Ok tt two_contexts.
Proof.
  assert (wf two_contexts) as Hwf by (apply (bool_decide_unpack _); by vm_compute).
  split.
  - apply (destroy_lazy_context_noop_iff two_contexts 2 Hwf); by vm_compute.
  - intros H.
    apply (destroy_lazy_context_noop_iff two_contexts 1 Hwf) in H; by vm_compute in H.
Defined.



(** X13: every sequence of calls with arguments of their C types,
    identifiers that were never issued or are stale included, runs
    from the initial store without undefined behaviour (no dangling
    dereference, no double free, no index outside the array) and ends
    in a well-formed store. *)
Theorem call_sequences_are_defined os :
  Forall valid_op os →
  ∃ vs s', run_ops os initial_state = Ok vs s' ∧ wf s' ∧ reachable s'.
Proof.
  intros Hv.
  destruct (run_ops_reachable os initial_state reach_init Hv) as (vs & s' & Hrun & Hs).
  exists vs, s'. split; [done|]. split; [by apply reachable_wf|done].
Qed.

Lemma call_sequences_are_defined_witness :
  ∃ vs s', run_ops [Destroy 3; Create (all_ok junk0) 16; Destroy 200;
                    Alloc SIZE_MAX; Destroy 0; Destroy 0; Reset]
                   initial_state = Ok vs s' ∧ wf s' ∧ reachable s'.
Proof.
  apply call_sequences_are_defined. apply (bool_decide_unpack _). by vm_compute.
Defined.

(** ** Allocation sequences that cannot wrap *)

Lemma overlaps_sym p1 n1 p2 n2 : overlaps p1 n1 p2 n2 = overlaps p2 n2 p1 n1.
Proof.
  destruct p1 as [|b1 o1], p2 as [|b2 o2]; try done.
  unfold overlaps. apply bool_decide_ext. split; intros (-> & ? & ?); done.
Qed.

Lemma total_size_cons p n l : total_size ((p, n) :: l) = n + total_size l.
Proof. reflexivity. Qed.

Lemma laid_out_total_nonneg m off l : laid_out m off l → 0 ≤ total_size l.
Proof.
  revert off. induction l as [|[p n] l IH]; intros off Hl; [done|].
  destruct Hl as (_ & Hn & Hl). rewrite total_size_cons.
  specialize (IH _ Hl). lia.
Qed.

Lemma laid_out_inside m off l i p n :
  laid_out m off l → l !! i = Some (p, n) →
  ∃ o, p = Ptr m o ∧ off ≤ o ∧ o + n ≤ off + total_size l.
Proof.
  revert off i. induction l as [|[p' n'] l IH]; intros off i Hl Hi; [done|].
  destruct Hl as (-> & Hn & Hl). rewrite total_size_cons.
  pose proof (laid_out_total_nonneg _ _ _ Hl) as Hnn.
  destruct i as [|i]; simpl in Hi.
  - injection Hi as <- <-. exists off. split; [done|lia].
  - destruct (IH _ _ Hl Hi) as (o & -> & Ho & Hup). exists o. split; [done|lia].
Qed.

(** X12: in a context of size [S], as long as every request is at most
    [SIZE_MAX - S] bytes (so that no sum can wrap), a run of
    [lazy_alloc] calls serves ranges that lie inside the buffer past
    the starting offset, are pairwise disjoint, and whose sizes add up
    to at most the space that was left. *)
Theorem allocations_without_wrap s ns :
  wf s → 0 < depth s →
  ∃ b a m,
    arena_at s (Z.to_nat (top (lazy_stack s))) = Some (b, a, m)
    ∧ (Forall (λ n, 0 ≤ n ∧ size a + n < SIZE_MOD) ns →
       ∃ ps s', lazy_allocs ns s = Ok ps s'
         ∧ total_size (served ns ps) ≤ size a - offset a
         ∧ (∀ i p n, served ns ps !! i = Some (p, n) →
              ∃ o, p = Ptr m o ∧ offset a ≤ o ∧ o + n ≤ size a)
         ∧ (∀ i j p1 n1 p2 n2, i ≠ j →
              served ns ps !! i = Some (p1, n1) →
              served ns ps !! j = Some (p2, n2) →
              overlaps p1 n1 p2 n2 = false)).
Proof.
  intros Hwf Hd. assert (0 ≤ top (lazy_stack s)) as Ht by (unfold depth in Hd; lia).
  destruct (wf_top_arena s Hwf Ht) as (b & a & m & Ha & Hg).
  exists b, a, m. split; [done|]. intros Hns.
  destruct (lazy_allocs_without_wrap ns s b a m Hwf Ht Ha Hns)
    as (ps & s' & Hrun & Hl & Hsum).
  exists ps, s'. split; [done|]. split; [done|]. split.
  - intros i p n Hi.
    destruct (laid_out_inside _ _ _ _ _ _ Hl Hi) as (o & -> & Ho & Hup).
    exists o. split; [done|lia].
  - intros i j p1 n1 p2 n2 Hij Hi Hj.
    destruct (decide (i < j)%nat) as [Hlt|Hge].
    + by apply (laid_out_disjoint _ _ _ i j _ _ _ _ Hl).
    + rewrite overlaps_sym.
      apply (laid_out_disjoint _ _ _ j i _ _ _ _ Hl); (done || lia).
Qed.

Lemma allocations_without_wrap_witness :
  ∃ ps s', lazy_allocs [40; 70; 0; 59; 1] one_context_used = Ok ps s'
           ∧ served [40; 70; 0; 59; 1] ps
               = [(Ptr 2%positive 1, 40); (Ptr 2%positive 41, 0);
                  (Ptr 2%positive 41, 59)]
           ∧ total_size (served [40; 70; 0; 59; 1] ps) ≤ 100 - 1.
Proof.
  assert (wf one_context_used) as Hwf
    by (apply (bool_decide_unpack _); by vm_compute).
  assert (0 < depth one_context_used) as Hd by (by vm_compute).
  destruct (allocations_without_wrap one_context_used [40; 70; 0; 59; 1] Hwf Hd)
    as (b & a & m & Ha & H).
  assert (Some (b, a, m) = Some (1%positive,
            {| memory := Ptr 2%positive 0; size := 100; offset := 1 |},
            2%positive)) as E by (rewrite <- Ha; by vm_compute).
  injection E as -> -> ->.
  destruct H as (ps & s' & Hrun & Hsum & _ & _).
  { apply (bool_decide_unpack _). by vm_compute. }
  exists ps, s'. split; [exact Hrun|]. split; [|exact Hsum].
  assert (Ok ps s' = lazy_allocs [40; 70; 0; 59; 1] one_context_used) as E
    by (symmetry; exact Hrun).
  vm_compute in E. injection E as -> _. by vm_compute.
Defined.

(** * The example program *)

Arguments call : simpl never.
Arguments store_int : simpl never.
Arguments load_int : simpl never.
Arguments printf : simpl never.

Lemma call_ok {A} (c : M A) w a s :
  c (store w) = Ok a s →
  call c w = Done a {| store := s; ints := ints w; stdout := stdout w |}.
Proof. intros H. unfold call. by rewrite H. Qed.

Lemma store_int_ok w b o len v :
  heap (store w) !! b = Some (CBuf len) → 0 ≤ o → o + SIZEOF_INT ≤ len →
  store_int (Ptr b o) v w =
    Done tt {| store := store w;
               ints := <[(b, o) := v]> (foldr delete (ints w) (clobbered b o));
               stdout := stdout w |}.
Proof. intros Hb Ho Hl. unfold store_int. by rewrite Hb, decide_True. Qed.

Lemma load_int_ok w b o len v :
  heap (store w) !! b = Some (CBuf len) → 0 ≤ o → o + SIZEOF_INT ≤ len →
  ints w !! (b, o) = Some v →
  load_int (Ptr b o) w = Done v w.
Proof. intros Hb Ho Hl Hv. unfold load_int. by rewrite Hb, decide_True, Hv. Qed.

(** The [if (data) *data = v; printf(fmt, data ? *data : -1)] idiom on
    a pointer into a live buffer with room for an [int]. *)
Lemma store_and_print w b o len v fmt :
  heap (store w) !! b = Some (CBuf len) → 0 ≤ o → o + SIZEOF_INT ≤ len →
  ((if decide (Ptr b o = NULL) then mret tt else store_int (Ptr b o) v) ≫= λ _,
   (if decide (Ptr b o = NULL) then mret (-1) else load_int (Ptr b o)) ≫= λ x,
   printf fmt x) w
  = Done tt {| store := store w;
               ints := <[(b, o) := v]> (foldr delete (ints w) (clobbered b o));
               stdout := stdout w ++ [fmt v] |}.
Proof.
  intros Hb Ho Hl. rewrite !decide_False by done.
  unfold mbind, Prog_bind. rewrite (store_int_ok w b o len v) by done.
  erewrite load_int_ok; [done|exact Hb|done|done|]. simpl.
  apply lookup_insert_eq.
Qed.

Lemma skip_and_print w fmt :
  ((if decide (NULL = NULL) then mret tt else store_int NULL 0) ≫= λ _,
   (if decide (NULL = NULL) then mret (-1) else load_int NULL) ≫= λ x,
   printf fmt x) w
  = Done tt {| store := store w; ints := ints w;
               stdout := stdout w ++ [fmt (-1)] |}.
Proof. by rewrite !decide_True by done. Qed.

(** X15: where it finds room on the stack and memory, [nested_function]
    prints 42 and returns with its context still open: the stack is one
    deeper, the new top context has 512 bytes of which 4 are taken by
    the [int] 42, and the caller's contexts are as they were. *)
Theorem nested_function_leaves_its_context_open o w :
  wf (store w) → depth (store w) < MAX_LAZY_STACK → succeeds o = true →
  ∃ w', nested_function o w = Done tt w'
    ∧ stdout w' = stdout w ++ [NestedAllocated 42]
    ∧ depth (store w') = depth (store w) + 1
    ∧ arena_at (store w') (Z.to_nat (depth (store w)))
        = Some (next (store w),
                {| memory := Ptr (Pos.succ (next (store w))) 0;
                   size := 512; offset := 4 |},
                Pos.succ (next (store w)))
    ∧ ints w' !! (Pos.succ (next (store w)), 0) = Some 42
    ∧ ∀ i, Z.of_nat i < depth (store w) →
           arena_at (store w') i = arena_at (store w) i.
Proof.
  destruct w as [s is0 out0]. simpl. intros Hwf Hroom Hok.
  apply andb_true_iff in Hok as [Ho1 Ho2].
  pose proof (wf_depth _ Hwf) as Hd.
  assert (is_size_t 512) as H512 by (by vm_compute).
  assert (wf (push s 512)) as Hwf1 by (by apply wf_push).
  pose proof (arena_at_push_top s 512 Hwf Hroom) as Ha.
  assert (0 ≤ top (lazy_stack (push s 512))) as Ht
    by (unfold push, depth in *; simpl; lia).
  assert (Z.to_nat (depth s) = Z.to_nat (top (lazy_stack (push s 512)))) as Etop
    by (unfold push, depth; simpl; lia).
  rewrite Etop in Ha.
  set (a1 := {| memory := Ptr (Pos.succ (next s)) 0; size := 512; offset := 0 |}) in *.
  set (s2 := with_header (push s 512) (next s) (set_offset a1 (offset a1 + SIZEOF_INT))).
  assert (heap s2 !! Pos.succ (next s) = Some (CBuf 512)) as Hbuf.
  { unfold s2, with_header, push. simpl.
    rewrite lookup_insert_ne by lia. rewrite lookup_insert_ne by lia.
    apply lookup_insert_eq. }
  eexists. split.
  { unfold nested_function. unfold mbind at 1 2. unfold Prog_bind at 1 2.
    erewrite call_ok.
    2: { cbn [store]. apply create_lazy_context_exec;
           [unfold depth in *; lia|unfold depth in *; lia
           |apply (wf_length _ Hwf)|done|done]. }
    erewrite call_ok.
    2: { simpl. apply (lazy_alloc_fits (push s 512) _ a1 _ SIZEOF_INT Hwf1 Ht Ha).
         by vm_compute. }
    apply (store_and_print _ _ 0 512); [exact Hbuf|done|by vm_compute]. }
  cbn [store stdout ints]. split; [done|].
  split; [unfold depth; simpl; lia|]. split.
  { rewrite Etop.
    change (arena_at s2 (Z.to_nat (top (lazy_stack (push s 512))))
            = Some (next s, set_offset a1 (offset a1 + SIZEOF_INT),
                    Pos.succ (next s))).
    unfold s2.
    assert (Z.of_nat (Z.to_nat (top (lazy_stack (push s 512)))) < depth (push s 512))
      as Hlt by (unfold push, depth in *; simpl; lia).
    rewrite (arena_at_with_header (push s 512) (next s) a1 (Pos.succ (next s)))
      by done.
    by rewrite decide_True. }
  split; [apply lookup_insert_eq|].
  intros i Hi.
  change (arena_at s2 i = arena_at s i). unfold s2.
  assert (Z.of_nat i < depth (push s 512)) as Hlt by (rewrite depth_push; lia).
  rewrite (arena_at_with_header (push s 512) (next s) a1 (Pos.succ (next s)))
    by done.
  rewrite decide_False by (unfold push, depth in *; simpl; lia).
  by apply arena_at_push_below.
Qed.

Lemma nested_function_leaves_its_context_open_witness :
  ∃ w', nested_function (all_ok junk0)
          {| store := one_context_used; ints := ∅; stdout := [] |} = Done tt w'
        ∧ stdout w' = [NestedAllocated 42]
        ∧ depth (store w') = 2.
Proof.
  set (w := {| store := one_context_used; ints := ∅; stdout := [] |}).
  assert (wf (store w)) as Hwf by (apply (bool_decide_unpack _); by vm_compute).
  assert (depth (store w) < MAX_LAZY_STACK) as Hroom by (by vm_compute).
  destruct (nested_function_leaves_its_context_open (all_ok junk0) w Hwf Hroom eq_refl)
    as (w' & Hrun & Hout & Hd & _).
  exists w'. split; [exact Hrun|]. split; [exact Hout|].
  rewrite Hd. by vm_compute.
Defined.

(** X16: [thread_func] on a new thread, for every outcome of the four
    [malloc] calls. It always returns and prints three lines: 100 if
    its own context was created, else -1; then 42 and 200 if either
    context was created, else -1 twice. It ends with an empty stack and
    an empty heap (the context [nested_function] left open is released
    by the cascade) except when its own [create_lazy_context] failed
    and [nested_function]'s succeeded: then [destroy_lazy_context(255)]
    does nothing and the 512-byte context stays open, 8 bytes used. *)
Theorem thread_func_outcomes o1 o2 :
  ∃ w', thread_func o1 o2 new_thread = Done tt w'
    ∧ stdout w'
        = [ThreadAllocated (if succeeds o1 then 100 else -1);
           NestedAllocated (if succeeds o1 || succeeds o2 then 42 else -1);
           ThreadAfterNested (if succeeds o1 || succeeds o2 then 200 else -1)]
    ∧ (if negb (succeeds o1) && succeeds o2
       then depth (store w') = 1
            ∧ ∃ b m, arena_at (store w') 0
                     = Some (b, {| memory := Ptr m 0; size := 512; offset := 8 |}, m)
       else depth (store w') = 0 ∧ heap (store w') = ∅).
Proof.
  destruct o1 as [[] [] j1], o2 as [[] [] j2];
    (eexists; split; [vm_compute; reflexivity|]);
    (split; [by vm_compute|]);
    cbn [succeeds arena_ok memory_ok andb negb];
    (split; [by vm_compute|]);
    first [ by vm_compute | do 2 eexists; vm_compute; reflexivity ].
Qed.


